(** * Replicate JavaScript client: retry controller, binary encoder,
      pagination and completion waiter

    A shallow embedding of [lib/util.js] ([withAutomaticRetries],
    [transformFileInputs], [transform], [isPlainObject]; the file that
    [lib/replicate.js] loads as ["./util"]) and of the orchestration methods
    of [lib/replicate.js] ([request]'s retry predicate, [paginate], [wait],
    [run]), followed by the properties established about them.  Line numbers
    are those of the two source files.

    Asynchronous code is sequential here: every [await] is a point where the
    effect of the awaited call happens, so a computation is a function from
    the state of the world before the call to an outcome and the state after
    it.  Calls that leave the process (the wrapped request, the prediction
    endpoints, the page fetches, [Math.random], the clock) are scripts indexed
    by the number of calls made so far, and every such call is appended to a
    trace. *)

From Stdlib Require Import ZArith NArith QArith Qabs List String Ascii Bool Lia.
From Stdlib Require Import Strings.Byte.
From Stdlib Require Import DecimalString.
From Stdlib Require Qcanon.
Import ListNotations.

Set Warnings "-register-all".

Open Scope Z_scope.
Open Scope string_scope.

(** ** JavaScript values shared by both files *)

Module JS.

(** Numbers: exact rationals and [NaN].  The integers met here
    (milliseconds, counters, byte lengths) are far below 2^53, where double
    arithmetic on them is exact; the rounding of a double that is not an
    integer (a product with a value of [Math.random()]) and the infinities
    are not represented. *)
Inductive num : Type :=
| NaN
| Fin (q : Q).

Definition of_Z (z : Z) : num := Fin (inject_Z z).
Definition of_nat (n : nat) : num := of_Z (Z.of_nat n).

Definition add (a b : num) : num :=
  match a, b with
  | Fin x, Fin y => Fin (Qred (x + y))
  | _, _ => NaN
  end.

Definition sub (a b : num) : num :=
  match a, b with
  | Fin x, Fin y => Fin (Qred (x - y))
  | _, _ => NaN
  end.

Definition mul (a b : num) : num :=
  match a, b with
  | Fin x, Fin y => Fin (Qred (x * y))
  | _, _ => NaN
  end.

(** [Number.isInteger]. *)
Definition Number_isInteger (n : num) : bool :=
  match n with
  | NaN => false
  | Fin q => (Qden (Qred q) =? 1)%positive
  end.

(** [a > b] and [a < b]; any comparison with [NaN] is false. *)
Definition gt (a b : num) : bool :=
  match a, b with
  | Fin x, Fin y => negb (Qle_bool x y)
  | _, _ => false
  end.

Definition lt (a b : num) : bool := gt b a.

(** Truthiness of a number, as [||] and [if] see it. *)
Definition truthy (n : num) : bool :=
  match n with
  | NaN => false
  | Fin q => negb (Qeq_bool q 0)
  end.

(** [2 ** e].  The exponents the code builds are integers or [NaN]
    (see [RetryFacts.sleep_exponent_cases]); a fractional exponent has an
    irrational power and is mapped to [NaN]. *)
Definition pow2 (e : num) : num :=
  match e with
  | NaN => NaN
  | Fin q =>
      if (Qden (Qred q) =? 1)%positive
      then Fin (Qred (Qpower 2 (Qnum (Qred q))))
      else NaN
  end.

(** Equality of numbers up to the representation of the rational. *)
Definition num_eq (a b : num) : Prop :=
  match a, b with
  | NaN, NaN => True
  | Fin x, Fin y => (x == y)%Q
  | _, _ => False
  end.

(** Template-literal rendering of an integer. *)
Definition string_of_Z (z : Z) : string := NilZero.string_of_int (Z.to_int z).

(** What [Headers.get] may hand back: [null] when the header is absent,
    otherwise the header text.  [HNumber] is a numeric value, which a
    hand-built headers object can return and which the retry controller
    tests for with [Number.isInteger]. *)
Inductive header_value : Type :=
| HNull
| HString (s : string)
| HNumber (n : num).

(** What can be thrown.  [ApiError] is the class of [lib/error.js]; the retry
    controller reads only the [Retry-After] header of the response it
    carries, which is the argument kept here. *)
Inductive error : Type :=
| TypeError (message : string)
| Error (message : string)
| ApiError (retryAfter : header_value).

End JS.

(** ** [lib/util.js], second half: the recursive binary encoder *)

Module Encoder.
Import JS.

(** *** The value tree

    What [isPlainObject] can see of a constructor function: the answers to
    [typeof Ctor == "function"] and [Ctor instanceof Ctor], and the text
    [Function.prototype.toString.call(Ctor)]. *)
Record constructor_view : Type := {
  is_function : bool;
  instanceof_itself : bool;
  source_text : string
}.

(** [Object.getPrototypeOf(value)]: [null], or a prototype object together
    with its own ["constructor"] property when it has one. *)
Inductive prototype : Type :=
| NullPrototype
| Prototype (own_constructor : option constructor_view).

(** What [isPlainObject] can see of an object: the outcome of
    [String(value)] ([None] when the conversion throws, as it does for an
    object that reaches no [toString] or [valueOf]) and its prototype.  The
    objects represented are those whose conversion returns or throws that
    [TypeError] and whose constructor answers [instanceof]: a [toString]
    that throws an error of its own, an [instanceof] check that throws, and
    values that contain themselves are not represented. *)
Record object_view : Type := {
  string_of : option string;
  proto : prototype
}.

(** A value: the primitives, the two binary kinds ([Buffer], and [Blob] with
    its [type], which is the empty string when none was given), arrays, and
    every other object with its own enumerable string-keyed properties in
    [Object.keys] order.  Maps, sets, dates and class instances are objects
    whose view differs from that of an object literal. *)
Inductive value : Type :=
| VUndefined
| VNull
| VBoolean (b : bool)
| VNumber (n : num)
| VString (s : string)
| VBuffer (bytes : list byte)
| VBlob (type : string) (bytes : list byte)
| VArray (elements : list value)
| VObject (view : object_view) (properties : list (string * value)).

Definition Object_source : string := "function Object() { [native code] }".

Definition Object_constructor : constructor_view :=
  {| is_function := true; instanceof_itself := true;
     source_text := Object_source |}.

(** A class or built-in constructor other than [Object]: [C instanceof C]
    is false for it. *)
Definition class_constructor (text : string) : constructor_view :=
  {| is_function := true; instanceof_itself := false; source_text := text |}.

(** The view of an object literal [{}]. *)
Definition literal_view : object_view :=
  {| string_of := Some "[object Object]";
     proto := Prototype (Some Object_constructor) |}.

(** The view of [Object.create(null)] without properties of its own that
    would convert it to a string. *)
Definition bare_view : object_view :=
  {| string_of := None; proto := NullPrototype |}.

(** The view of an instance of a built-in or user class. *)
Definition instance_view (str : string) (class_text : string) : object_view :=
  {| string_of := Some str;
     proto := Prototype (Some (class_constructor class_text)) |}.

Definition a_Map : value :=
  VObject (instance_view "[object Map]" "function Map() { [native code] }") [].
Definition a_Set : value :=
  VObject (instance_view "[object Set]" "function Set() { [native code] }") [].
Definition a_Date : value :=
  VObject (instance_view "Thu Jan 01 1970 00:00:00 GMT+0000 (Coordinated Universal Time)"
                         "function Date() { [native code] }") [].
Definition a_class_instance : value :=
  VObject (instance_view "[object Object]" "class Point { }")
          [("x", VNumber (of_Z 1))].

(** *** Outcomes and the traversal's state

    The only state of one [transformFileInputs] call is [totalBytes]. *)
Inductive result (A : Type) : Type :=
| Returned (a : A)
| Thrown (e : error).

Arguments Returned {A} a.
Arguments Thrown {A} e.

Definition M (A : Type) : Type := Z -> result (A * Z).

Definition ret {A} (a : A) : M A := fun totalBytes => Returned (a, totalBytes).
Definition throw {A} (e : error) : M A := fun _ => Thrown e.
Definition bind {A B} (m : M A) (k : A -> M B) : M B :=
  fun totalBytes =>
    match m totalBytes with
    | Returned (a, totalBytes') => k a totalBytes'
    | Thrown e => Thrown e
    end.
Definition set_totalBytes (n : Z) : M unit := fun _ => Returned (tt, n).
Definition get_totalBytes : M Z := fun totalBytes => Returned (totalBytes, totalBytes).

Declare Scope enc_scope.
Delimit Scope enc_scope with enc.
Notation "x <- m ;; k" := (bind m (fun x => k))
  (at level 61, m at next level, right associativity) : enc_scope.
Notation "m ;;; k" := (bind m (fun _ => k))
  (at level 61, right associativity) : enc_scope.

(** *** [isPlainObject] *)

Definition Array_isArray (v : value) : bool :=
  match v with VArray _ => true | _ => false end.

Definition Buffer_isBuffer (v : value) : bool :=
  match v with VBuffer _ => true | _ => false end.

Definition instanceof_Blob (v : value) : bool :=
  match v with VBlob _ _ => true | _ => false end.

(** Lines 140-158.  Primitives fail [typeof value == "object" && value !==
    null].  Buffers, blobs and arrays are object-like; whatever their string
    conversion, their prototypes' constructors ([Buffer], [Blob], [Array]) are
    not instances of themselves, so the last test fails for them. *)
Definition isPlainObject (v : value) : result bool :=
  match v with
  | VObject view _ =>
      match string_of view with
      | None => Thrown (TypeError "Cannot convert object to primitive value")
      | Some str =>
          if negb (str =? "[object Object]") then Returned false
          else
            match proto view with
            | NullPrototype => Returned true
            | Prototype None => Returned false
            | Prototype (Some Ctor) =>
                Returned (is_function Ctor && instanceof_itself Ctor
                          && (source_text Ctor =? Object_source))
            end
      end
  | VBuffer _ | VBlob _ _ | VArray _ => Returned false
  | VUndefined | VNull | VBoolean _ | VNumber _ | VString _ => Returned false
  end.

(** *** [transform] *)

(** [copy[key] = v] on the object being built, for an ordinary property
    name.  The name ["__proto__"] is not ordinary: the assignment goes to
    the accessor inherited from [Object.prototype] and creates no property;
    that is not modelled, and [walkable] below excludes the name. *)
Fixpoint set_property (copy : list (string * value)) (key : string) (v : value)
  : list (string * value) :=
  match copy with
  | [] => [(key, v)]
  | (k, old) :: rest =>
      if k =? key then (k, v) :: rest else (k, old) :: set_property rest key v
  end.

(** [copy = ...] where [copy] was declared with [const]: the right-hand side
    has been evaluated, the assignment throws. *)
Definition assign_const {A} (name : string) (rhs : value) : M A :=
  throw (TypeError "Assignment to constant variable.").

(** Lines 118-136. *)
Fixpoint transform (v : value) (mapper : value -> M value) {struct v} : M value :=
  match v with
  | VArray elements =>
      (* const copy = []; for (const val of value) { copy = await transform(val, mapper); } *)
      ((fix for_of (vals : list value) : M unit :=
          match vals with
          | [] => ret tt
          | val :: rest =>
              (r <- transform val mapper ;;
               assign_const (A:=unit) "copy" r ;;;
               for_of rest)%enc
          end) elements ;;;
       ret (VArray []))%enc
  | VObject view properties =>
      match isPlainObject (VObject view properties) with
      | Thrown e => throw e
      | Returned true =>
          (* const copy = {}; for (const key of Object.keys(value)) { copy[key] = ... } *)
          (copy <- (fix for_keys (props : list (string * value))
                                 (copy : list (string * value))
                     : M (list (string * value)) :=
                      match props with
                      | [] => ret copy
                      | (key, val) :: rest =>
                          (r <- transform val mapper ;;
                           for_keys rest (set_property copy key r))%enc
                      end) properties [] ;;
           ret (VObject literal_view copy))%enc
      | Returned false => mapper (VObject view properties)
      end
  | leaf => mapper leaf
  end.

(** *** [transformFileInputs] *)

Definition MAX_DATA_URI_SIZE : Z := 10000000.

Definition byteLength (bytes : list byte) : Z := Z.of_nat (List.length bytes).

(** [Buffer.prototype.toString("base64")]: the standard alphabet, padded. *)
Definition base64_alphabet : string :=
  "ABCDEFGHIJKLMNOPQRSTUVWXYZabcdefghijklmnopqrstuvwxyz0123456789+/".

Definition base64_digit (n : N) : ascii :=
  match String.get (N.to_nat n) base64_alphabet with
  | Some c => c
  | None => "="%char
  end.

Fixpoint base64 (bytes : list byte) : string :=
  match bytes with
  | [] => ""
  | [a] =>
      let n := (Byte.to_N a * 65536)%N in
      String (base64_digit (n / 262144))
        (String (base64_digit ((n / 4096) mod 64)) "==")
  | [a; b] =>
      let n := (Byte.to_N a * 65536 + Byte.to_N b * 256)%N in
      String (base64_digit (n / 262144))
        (String (base64_digit ((n / 4096) mod 64))
           (String (base64_digit ((n / 64) mod 64)) "="))
  | a :: b :: c :: rest =>
      let n := (Byte.to_N a * 65536 + Byte.to_N b * 256 + Byte.to_N c)%N in
      String (base64_digit (n / 262144))
        (String (base64_digit ((n / 4096) mod 64))
           (String (base64_digit ((n / 64) mod 64))
              (String (base64_digit (n mod 64)) (base64 rest))))
  end.

Definition data_uri (mime : string) (bytes : list byte) : string :=
  "data:" ++ mime ++ ";base64," ++ base64 bytes.

(** Lines 80-106, the leaf transformer.  [mime] is [undefined] unless the
    leaf is a [Blob]; [??] replaces only [undefined], so a blob's empty
    [type] is kept. *)
Definition mapper (v : value) : M value :=
  let '(mime, v) :=
    match v with
    | VBlob type bytes => (Some type, VBuffer bytes)
    | _ => (None, v)
    end in
  match v with
  | VBuffer bytes =>
      (set_totalBytes (0 + byteLength bytes) ;;;
       totalBytes <- get_totalBytes ;;
       if totalBytes >? MAX_DATA_URI_SIZE then ret VNull
       else
         let mime := match mime with
                     | Some m => m
                     | None => "application/octet-stream"
                     end in
         ret (VString (data_uri mime bytes)))%enc
  | other => ret other
  end.

Definition size_limit_message (totalBytes : Z) : string :=
  "Combined filesize of prediction " ++ string_of_Z totalBytes
  ++ " bytes exceeds 10mb limit for inline encoding, please provide URLs instead".

(** Lines 78-115. *)
Definition transformFileInputs (inputs : value) : result value :=
  match transform inputs mapper 0 with
  | Thrown e => Thrown e
  | Returned (result, totalBytes) =>
      if totalBytes >? MAX_DATA_URI_SIZE
      then Thrown (Error (size_limit_message totalBytes))
      else Returned result
  end.

(** The sum of the byte lengths of all binary leaves of a tree: of the
    buffers and blobs reached through arrays and plain objects. *)
Fixpoint binary_size (v : value) : Z :=
  match v with
  | VBuffer bytes | VBlob _ bytes => byteLength bytes
  | VArray elements =>
      (fix sum (l : list value) : Z :=
         match l with [] => 0 | x :: r => binary_size x + sum r end) elements
  | VObject view properties =>
      match isPlainObject (VObject view properties) with
      | Returned true =>
          (fix sum (l : list (string * value)) : Z :=
             match l with [] => 0 | (_, x) :: r => binary_size x + sum r end)
            properties
      | _ => 0
      end
  | _ => 0
  end.

(** A buffer of [n] zero bytes, [Buffer.alloc(n)]. *)
Definition Buffer_alloc (n : Z) : list byte := List.repeat x00 (Z.to_nat n).

(** *** Decoding, and the encoding the specification describes *)

Fixpoint index_of (c : ascii) (s : string) (i : N) : option N :=
  match s with
  | EmptyString => None
  | String d rest => if Ascii.eqb c d then Some i else index_of c rest (N.succ i)
  end.

(** The value of a base64 digit; [None] for any other character, the
    padding ["="] among them. *)
Definition base64_value (c : ascii) : option N := index_of c base64_alphabet 0.

Definition bytes_of (n : N) (count : nat) : option (list byte) :=
  match Byte.of_N (n / 65536), Byte.of_N ((n / 256) mod 256), Byte.of_N (n mod 256) with
  | Some a, Some b, Some c => Some (List.firstn count [a; b; c])
  | _, _, _ => None
  end.

Fixpoint base64_decode (s : string) : option (list byte) :=
  match s with
  | EmptyString => Some []
  | String c1 (String c2 (String c3 (String c4 rest))) =>
      match base64_value c1, base64_value c2, base64_value c3, base64_value c4 with
      | Some v1, Some v2, Some v3, Some v4 =>
          match bytes_of (v1 * 262144 + v2 * 4096 + v3 * 64 + v4) 3,
                base64_decode rest with
          | Some group, Some tail => Some (group ++ tail)%list
          | _, _ => None
          end
      | Some v1, Some v2, Some v3, None =>
          if Ascii.eqb c4 "=" && (rest =? "")
          then bytes_of (v1 * 262144 + v2 * 4096 + v3 * 64) 2
          else None
      | Some v1, Some v2, None, None =>
          if Ascii.eqb c3 "=" && Ascii.eqb c4 "=" && (rest =? "")
          then bytes_of (v1 * 262144 + v2 * 4096) 1
          else None
      | _, _, _, _ => None
      end
  | _ => None
  end.

(** The encoding the specification describes: binary leaves become data
    URIs, with the generic MIME type where none is given; arrays and plain
    objects are rebuilt around their encoded parts; anything else stays. *)
Fixpoint encoded (v : value) : value :=
  match v with
  | VBuffer bytes => VString (data_uri "application/octet-stream" bytes)
  | VBlob type bytes =>
      VString (data_uri (if type =? "" then "application/octet-stream" else type)
                        bytes)
  | VArray elements => VArray (List.map encoded elements)
  | VObject view properties =>
      match isPlainObject (VObject view properties) with
      | Returned true =>
          VObject literal_view
            (List.map (fun kv => (fst kv, encoded (snd kv))) properties)
      | _ => VObject view properties
      end
  | leaf => leaf
  end.

Fixpoint distinct (keys : list string) : bool :=
  match keys with
  | [] => true
  | k :: rest => negb (List.existsb (String.eqb k) rest) && distinct rest
  end.

(** A property name under which [copy[key] = v] gives the rebuilt object one
    more property and leaves it an object literal otherwise: not
    ["__proto__"] (an assignment to that name goes to the accessor inherited
    from [Object.prototype] and creates no property) and not ["toString"]
    (a property of that name replaces the conversion that [isPlainObject]
    asks for). *)
Definition ordinary_name (key : string) : bool :=
  negb (key =? "__proto__") && negb (key =? "toString").

(** The trees on which the traversal gets through and rebuilds what it
    walks: no array but the empty one, no blob without a type, every object
    accepted or rejected by [isPlainObject] without throwing, and in the
    objects walked property names that differ and are ordinary. *)
Fixpoint walkable (v : value) : bool :=
  match v with
  | VArray elements => match elements with [] => true | _ :: _ => false end
  | VBlob type _ => negb (type =? "")
  | VObject view properties =>
      match isPlainObject (VObject view properties) with
      | Returned true =>
          distinct (List.map fst properties)
          && List.forallb ordinary_name (List.map fst properties)
          && (fix all (l : list (string * value)) : bool :=
                match l with
                | [] => true
                | (_, x) :: r => walkable x && all r
                end) properties
      | Returned false => true
      | Thrown _ => false
      end
  | _ => true
  end.

End Encoder.

(** ** [lib/util.js], first half: the retry controller *)

Module Retry.
Import JS.

(** A [Response], as far as the controller and its predicates read it. *)
Record response : Type := {
  ok : bool;
  status : Z
}.

(** How one call of [request()] settles. *)
Inductive settled : Type :=
| Resolved (r : response)
| Rejected (e : error).

(** The [options] argument; [None] is a property left [undefined]. *)
Record options : Type := {
  opt_shouldRetry : option (response -> bool);
  opt_maxRetries : option num;
  opt_interval : option num;
  opt_jitter : option num
}.

Definition no_options : options :=
  {| opt_shouldRetry := None; opt_maxRetries := None;
     opt_interval := None; opt_jitter := None |}.

(** [options.x || d] for a numeric property. *)
Definition or_default (x : option num) (d : num) : num :=
  match x with
  | Some n => if truthy n then n else d
  | None => d
  end.

(** A property used as a number: [undefined] converts to [NaN]. *)
Definition to_number (x : option num) : num :=
  match x with
  | Some n => n
  | None => NaN
  end.

Definition shouldRetry (o : options) : response -> bool :=
  match opt_shouldRetry o with
  | Some f => f
  | None => fun _ => false
  end.
Definition maxRetries (o : options) : num := or_default (opt_maxRetries o) (of_Z 5).
Definition interval (o : options) : num := or_default (opt_interval o) (of_Z 500).
Definition jitter (o : options) : num := or_default (opt_jitter o) (of_Z 100).

(** What the controller does to the world: it calls [request()] and it
    sleeps. *)
Inductive event : Type :=
| Request
| Sleep (ms : num).

Record world : Type := {
  requests : nat;          (* calls of request() so far *)
  draws : nat;             (* calls of Math.random() so far *)
  trace : list event       (* oldest first *)
}.

Definition initial : world := {| requests := 0; draws := 0; trace := [] |}.

(** How a call of [withAutomaticRetries] ends. *)
Inductive outcome : Type :=
| Fulfilled (r : response)
| Failed (e : error)
| OutOfFuel.

(** Truthiness and integrality of a header value, and the time value of
    [new Date(retryAfter)]: a text goes through the platform's date parser,
    a number is clipped and truncated. *)
Definition header_truthy (h : header_value) : bool :=
  match h with
  | HNull => false
  | HString s => negb (s =? "")
  | HNumber n => truthy n
  end.

Definition header_isInteger (h : header_value) : bool :=
  match h with
  | HNumber n => Number_isInteger n
  | HNull | HString _ => false
  end.

Definition header_times (h : header_value) (k : num) : num :=
  match h with
  | HNumber n => mul n k
  | HNull | HString _ => NaN
  end.

Definition time_of_number (n : num) : option Z :=
  match n with
  | NaN => None
  | Fin q =>
      if Qle_bool (Qabs q) (inject_Z 8640000000000000)
      then Some (Z.quot (Qnum q) (Z.pos (Qden q)))
      else None
  end.

Section Controller.

(** The environment of one call: the [k]-th call of [request()], the
    [k]-th value of [Math.random()], the platform's date parser ([None]
    for an invalid date) and the clock read while the [k]-th request's
    error is handled. *)
Variable request : nat -> settled.
Variable random : nat -> Q.
Variable Date_parse : string -> option Z.
Variable now : nat -> Z.

Variable o : options.

Definition Date_getTime (h : header_value) : option Z :=
  match h with
  | HString s => Date_parse s
  | HNumber n => time_of_number n
  | HNull => None
  end.

Definition call_request (w : world) : settled * world :=
  (request (requests w),
   {| requests := S (requests w); draws := draws w;
      trace := trace w ++ [Request] |}).

Definition call_random (w : world) : Q * world :=
  (random (draws w),
   {| requests := requests w; draws := S (draws w); trace := trace w |}).

Definition sleep (ms : num) (w : world) : world :=
  {| requests := requests w; draws := draws w;
     trace := trace w ++ [Sleep ms] |}.

(** Line 33. *)
Definition provisional_delay (attempts : nat) (r : Q) : num :=
  add (mul (interval o) (pow2 (of_nat attempts))) (mul (Fin r) (jitter o)).

(** Lines 41-57, the [catch] block: the delay after [error] was caught at
    clock reading [t]. *)
Definition delay_after_error (delay : num) (e : error) (t : Z) : num :=
  match e with
  | ApiError retryAfter =>
      if header_truthy retryAfter then
        if negb (header_isInteger retryAfter) then
          match Date_getTime retryAfter with
          | Some date => of_Z (date - t)
          | None => delay
          end
        else header_times retryAfter (of_Z 1000)
      else delay
  | TypeError _ | Error _ => delay
  end.

(** Line 61, the argument of [sleep]. *)
Definition sleep_duration : num :=
  mul (interval o) (pow2 (sub (to_number (opt_maxRetries o)) (maxRetries o))).

(** Lines 59-64. *)
Definition after_attempt (delay : num) (attempts : nat) (w : world) : nat * world :=
  if Number_isInteger (maxRetries o) && gt (maxRetries o) (of_Z 0) then
    (S attempts,
     if Number_isInteger delay && gt delay (of_Z 0)
     then sleep sleep_duration w else w)
  else (attempts, w).

(** Line 68. *)
Definition final_request (w : world) : outcome * world :=
  let '(s, w) := call_request w in
  match s with
  | Resolved r => (Fulfilled r, w)
  | Rejected e => (Failed e, w)
  end.

(** Lines 31-66: the [do ... while] loop, one unit of fuel per iteration,
    followed by line 68. *)
Fixpoint retry_loop (fuel : nat) (attempts : nat) (w : world) : outcome * world :=
  match fuel with
  | O => (OutOfFuel, w)
  | S fuel =>
      let '(r, w) := call_random w in
      let delay := provisional_delay attempts r in
      let '(s, w) := call_request w in
      let verdict :=
        match s with
        | Resolved response =>
            if ok response || negb (shouldRetry o response)
            then inl response else inr delay
        | Rejected e => inr (delay_after_error delay e (now (requests w - 1)))
        end in
      match verdict with
      | inl response => (Fulfilled response, w)
      | inr delay =>
          let '(attempts, w) := after_attempt delay attempts w in
          if lt (of_nat attempts) (maxRetries o)
          then retry_loop fuel attempts w
          else final_request w
      end
  end.

Definition withAutomaticRetries (fuel : nat) : outcome * world :=
  retry_loop fuel 0 initial.

End Controller.

End Retry.

(** ** [lib/replicate.js]: retry predicate, pagination, waiting, running *)

Module Replicate.
Import JS.

(** Lines 248-251 of [request]: which responses are retried. *)
Definition shouldRetry (method : string) (response : Retry.response) : bool :=
  if method =? "GET"
  then (Retry.status response =? 429)%Z || (Retry.status response >=? 500)%Z
  else (Retry.status response =? 429)%Z.

(** A prediction record, as far as [wait] and [run] read it; [id] is [None]
    when the property is missing. *)
Record prediction : Type := {
  id : option string;
  status : string;
  output : string;
  error : string
}.

(** A page of results. *)
Record page : Type := {
  results : list string;
  next : option string
}.

(** Truthiness of an optional string ([id], [next], [owner], ...). *)
Definition present (s : option string) : bool :=
  match s with
  | Some s => negb (s =? "")
  | None => false
  end.

Definition text (s : option string) : string :=
  match s with Some s => s | None => "undefined" end.

(** Everything these methods do to the outside. *)
Inductive event : Type :=
| CallEndpoint                          (* endpoint() *)
| RequestGET (url : string)             (* this.request(url, {method: "GET"}) *)
| Create (key value : string)           (* this.predictions.create({..., key: value}) *)
| Get (id : option string)              (* this.predictions.get(id) *)
| Cancel (id : option string)           (* this.predictions.cancel(id) *)
| SleepFor (ms : num)                   (* sleep(interval) *)
| Progress (p : prediction).            (* progress(p) *)

Record world : Type := {
  gets : nat;              (* calls of predictions.get so far *)
  reads : nat;             (* reads of signal.aborted so far *)
  fetches : nat;           (* page requests so far *)
  trace : list event       (* oldest first *)
}.

Definition initial : world := {| gets := 0; reads := 0; fetches := 0; trace := [] |}.

(** A promise that has resolved, has rejected, or is still pending when the
    fuel of the model runs out. *)
Inductive promise (A : Type) : Type :=
| Resolves (a : A)
| Rejects (e : JS.error)
| Pending.

Arguments Resolves {A} a.
Arguments Rejects {A} e.
Arguments Pending {A}.

Definition M (A : Type) : Type := world -> promise A * world.

Definition ret {A} (a : A) : M A := fun w => (Resolves a, w).
Definition throw {A} (e : JS.error) : M A := fun w => (Rejects e, w).
Definition pending {A} : M A := fun w => (Pending, w).
Definition bind {A B} (m : M A) (k : A -> M B) : M B :=
  fun w =>
    match m w with
    | (Resolves a, w') => k a w'
    | (Rejects e, w') => (Rejects e, w')
    | (Pending, w') => (Pending, w')
    end.

Declare Scope js_scope.
Delimit Scope js_scope with js.
Notation "x <- m ;; k" := (bind m (fun x => k))
  (at level 61, m at next level, right associativity) : js_scope.
Notation "m ;;; k" := (bind m (fun _ => k))
  (at level 61, right associativity) : js_scope.

Definition log (e : event) : M unit :=
  fun w => (Resolves tt,
            {| gets := gets w; reads := reads w; fetches := fetches w;
               trace := trace w ++ [e] |}).

(** What a call that leaves the client comes back with. *)
Inductive reply (A : Type) : Type :=
| Answer (a : A)
| Failure (e : JS.error).

Arguments Answer {A} a.
Arguments Failure {A} e.

Definition settle {A} (r : reply A) : M A :=
  fun w =>
    match r with
    | Answer a => (Resolves a, w)
    | Failure e => (Rejects e, w)
    end.

Definition count (f : event -> bool) (t : list event) : nat :=
  List.length (List.filter f t).

Definition is_get (e : event) : bool :=
  match e with Get _ => true | _ => false end.
Definition is_cancel (e : event) : bool :=
  match e with Cancel _ => true | _ => false end.
Definition is_network (e : event) : bool :=
  match e with
  | CallEndpoint | RequestGET _ | Create _ _ | Get _ | Cancel _ => true
  | SleepFor _ | Progress _ => false
  end.

(** *** [paginate] (lines 329-337) *)

Section Paginate.

(** [endpoint()] as first called, and the [k]-th page request:
    [this.request(url, { method: "GET" }).then((r) => r.json())]. *)
Variable endpoint : reply page.
Variable request_json : nat -> string -> reply page.

(** Where the generator stands between two calls of its [next()]: not
    started on a page source, suspended at [yield response.results], or
    completed.  A generator delegating with [yield*] is at the point where
    its innermost generator is, and completes when that one does. *)
Inductive source : Type :=
| Endpoint
| NextPage (url : string).

Inductive generator : Type :=
| NotStarted (from : source)
| Suspended (response : page)
| Completed.

(** What one call of [next()] delivers. *)
Inductive iteration : Type :=
| Yield (batch : list string)
| Return
| Throw (e : JS.error).

Definition call_source (from : source) (w : world) : reply page * world :=
  match from with
  | Endpoint =>
      (endpoint,
       {| gets := gets w; reads := reads w; fetches := fetches w;
          trace := trace w ++ [CallEndpoint] |})
  | NextPage url =>
      (request_json (fetches w) url,
       {| gets := gets w; reads := reads w; fetches := S (fetches w);
          trace := trace w ++ [RequestGET url] |})
  end.

(** Run the body from its start on [from] up to the [yield]. *)
Definition start (from : source) (w : world) : iteration * generator * world :=
  match call_source from w with
  | (Answer response, w') => (Yield (results response), Suspended response, w')
  | (Failure e, w') => (Throw e, Completed, w')
  end.

Definition generator_next (g : generator) (w : world) : iteration * generator * world :=
  match g with
  | NotStarted from => start from w
  | Suspended response =>
      if present (next response)
      then start (NextPage (text (next response))) w
      else (Return, Completed, w)
  | Completed => (Return, Completed, w)
  end.

(** [for await (const batch of paginate(endpoint))]: call [next()] until
    the generator returns or throws; [None] when the fuel runs out
    first. *)
Fixpoint consume (fuel : nat) (g : generator) (w : world)
  : list (list string) * option iteration * world :=
  match fuel with
  | O => ([], None, w)
  | S fuel =>
      match generator_next g w with
      | (Yield batch, g', w') =>
          let '(batches, last, w'') := consume fuel g' w' in
          (batch :: batches, last, w'')
      | (last, _, w') => ([], Some last, w')
      end
  end.

Definition paginate : generator := NotStarted Endpoint.

End Paginate.

(** *** [wait] (lines 355-396) *)

Record wait_options : Type := { wait_interval : option num }.

Definition terminal (s : string) : bool :=
  (s =? "succeeded") || (s =? "failed") || (s =? "canceled").

Section Wait.

(** The [k]-th call of [this.predictions.get]. *)
Variable predictions_get : nat -> reply prediction.

Definition call_get (i : option string) : M prediction :=
  fun w =>
    (log (Get i) ;;; settle (predictions_get (gets w)))%js
      {| gets := S (gets w); reads := reads w; fetches := fetches w;
         trace := trace w |}.

Definition sleep (ms : num) : M unit := log (SleepFor ms).

Section Call.

Variable prediction : prediction.
Variable options : option wait_options.
Variable stop : option (Replicate.prediction -> M bool).

(** Line 372. *)
Definition interval : num :=
  Retry.or_default
    (match options with Some o => wait_interval o | None => None end)
    (of_Z 500).

(** Lines 376-389, one unit of fuel per iteration. *)
Fixpoint poll (fuel : nat) (updatedPrediction : Replicate.prediction)
  : M Replicate.prediction :=
  if terminal (status updatedPrediction) then ret updatedPrediction
  else
    match fuel with
    | O => pending
    | S fuel =>
        (stopped <- match stop with
                    | Some stop => stop updatedPrediction
                    | None => ret false
                    end ;;
         if stopped : bool then ret updatedPrediction
         else
           sleep interval ;;;
           updatedPrediction <- call_get (id prediction) ;;
           poll fuel updatedPrediction)%js
    end.

Definition wait (fuel : nat) : M Replicate.prediction :=
  if negb (present (id prediction)) then throw (Error "Invalid prediction")
  else if terminal (status prediction) then ret prediction
  else
    (updatedPrediction <- call_get (id prediction) ;;
     updatedPrediction <- poll fuel updatedPrediction ;;
     if status updatedPrediction =? "failed"
     then throw (Error ("Prediction failed: " ++ error updatedPrediction))
     else ret updatedPrediction)%js.

End Call.

(** *** [run] (lines 142-197) *)

(** The result of [ModelVersionIdentifier.parse(ref)] ([lib/identifier.js]). *)
Record identifier : Type := {
  owner : option string;
  name : option string;
  version : option string
}.

(** The parts of [options] that [run] reads itself, and whether a
    [progress] callback was passed.  A signal is the script of the values
    its [aborted] property shows at successive reads. *)
Record run_options : Type := {
  run_wait : option wait_options;
  signal : option (nat -> bool)
}.

(** The outcome of [this.predictions.create] and of
    [this.predictions.cancel]. *)
Variable predictions_create : reply prediction.
Variable predictions_cancel : reply unit.

Definition call_create (key value : string) : M prediction :=
  (log (Create key value) ;;; settle predictions_create)%js.

Definition call_cancel (i : option string) : M unit :=
  (log (Cancel i) ;;; settle predictions_cancel)%js.

Definition call_progress (progress : bool) (p : prediction) : M unit :=
  if progress then log (Progress p) else ret tt.

(** [signal && signal.aborted]. *)
Definition read_aborted (s : option (nat -> bool)) : M bool :=
  match s with
  | None => ret false
  | Some aborted =>
      fun w =>
        (Resolves (aborted (reads w)),
         {| gets := gets w; reads := S (reads w); fetches := fetches w;
            trace := trace w |})
  end.

(** Lines 172-184, the callback handed to [wait]. *)
Definition run_stop (options : run_options) (progress : bool)
           (updatedPrediction : prediction) : M bool :=
  (call_progress progress updatedPrediction ;;;
   aborted <- read_aborted (signal options) ;;
   if aborted : bool then
     call_cancel (id updatedPrediction) ;;;
     ret true
   else ret false)%js.

Definition run (fuel : nat) (identifier : identifier) (options : run_options)
           (progress : bool) : M string :=
  (prediction <-
     (if present (version identifier)
      then call_create "version" (text (version identifier))
      else if present (owner identifier) && present (name identifier)
      then call_create "model"
                       (text (owner identifier) ++ "/" ++ text (name identifier))
      else throw (Error "Invalid model version identifier")) ;;
   call_progress progress prediction ;;;
   prediction <- wait prediction
                      (match run_wait options with
                       | Some w => Some w
                       | None => Some {| wait_interval := None |}
                       end)
                      (Some (run_stop options progress)) fuel ;;
   call_progress progress prediction ;;;
   if status prediction =? "failed"
   then throw (Error ("Prediction failed: " ++ error prediction))
   else ret (output prediction))%js.

End Wait.

End Replicate.

(** ** [lib/replicate.js]: the [request] method (lines 211-271) *)

Module Client.
Import JS.

(** [route.startsWith("/")], [route.slice(1)] and [baseUrl.endsWith("/")]. *)
Definition starts_with_slash (s : string) : bool :=
  match s with
  | String c _ => Ascii.eqb c "/"
  | EmptyString => false
  end.

Definition slice_1 (s : string) : string :=
  match s with
  | String _ rest => rest
  | EmptyString => ""
  end.

Fixpoint ends_with_slash (s : string) : bool :=
  match s with
  | EmptyString => false
  | String c EmptyString => Ascii.eqb c "/"
  | String _ rest => ends_with_slash rest
  end.

(** The [route] argument: a [URL] object, or a string. *)
Inductive route : Type :=
| RouteURL (href : string)
| RoutePath (path : string).

(** Where a request goes: the [URL] that was passed in, or
    [new URL(relative, base)] with the two arguments as the code builds
    them; and the pairs added with [url.searchParams.append], in order. *)
Inductive location : Type :=
| Given (href : string)
| NewURL (relative base : string).

Record url : Type := {
  location_of : location;
  appended : list (string * string)
}.

(** The fields of the client that [request] reads; [auth] is [None] when
    neither the option nor the environment variable set it. *)
Record client : Type := {
  auth : option string;
  baseUrl : string;
  userAgent : string
}.

(** [options.headers]: a plain object, or a [Headers] instance, whose
    entries [Object.entries] does not see (they are not own enumerable
    properties). *)
Inductive header_init : Type :=
| PlainObject (entries : list (string * string))
| HeadersInstance (entries : list (string * string)).

Definition Object_entries (h : header_init) : list (string * string) :=
  match h with
  | PlainObject entries => entries
  | HeadersInstance _ => []
  end.

(** The [options] argument, over the type [D] of request bodies.  [data]
    is [None] when [options.data] is [undefined] or another falsy value:
    [request] sends a body for a truthy [data] only. *)
Record request_options (D : Type) : Type := {
  method : option string;
  params : list (string * string);
  data : option D;
  headers : option header_init
}.

Arguments method {D} _.
Arguments params {D} _.
Arguments data {D} _.
Arguments headers {D} _.

(** The second argument of [fetch]. *)
Record init : Type := {
  init_method : string;
  init_headers : list (string * string);
  init_body : option string
}.

(** [headers[key] = value] on the object being filled. *)
Fixpoint assign (headers : list (string * string)) (key value : string)
  : list (string * string) :=
  match headers with
  | [] => [(key, value)]
  | (k, old) :: rest =>
      if k =? key then (k, value) :: rest else (k, old) :: assign rest key value
  end.

(** [headers[key]]. *)
Fixpoint get (headers : list (string * string)) (key : string) : option string :=
  match headers with
  | [] => None
  | (k, v) :: rest => if k =? key then Some v else get rest key
  end.

(** Lines 214-222. *)
Definition locate (c : client) (r : route) : location :=
  match r with
  | RouteURL href => Given href
  | RoutePath path =>
      NewURL (if starts_with_slash path then slice_1 path else path)
             (if ends_with_slash (baseUrl c) then baseUrl c else baseUrl c ++ "/")
  end.

(** Lines 230-240. *)
Definition build_headers (c : client) (given : option header_init)
  : list (string * string) :=
  let headers := [] in
  let headers :=
    if Replicate.present (auth c)
    then assign headers "Authorization" ("Token " ++ Replicate.text (auth c))
    else headers in
  let headers := assign headers "Content-Type" "application/json" in
  let headers := assign headers "User-Agent" (userAgent c) in
  match given with
  | Some h =>
      List.fold_left (fun headers kv => assign headers (fst kv) (snd kv))
                     (Object_entries h) headers
  | None => headers
  end.

Section Request.

(** Request bodies and [JSON.stringify] on them; [fetch], whose [k]-th call
    with a given target and [init] resolves to a response or rejects; the
    rest of the retry controller's environment; and the [Retry-After] header
    of a response, which the [ApiError] built from it carries. *)
Variable D : Type.
Variable JSON_stringify : D -> string.
Variable fetch : url -> init -> nat -> Retry.settled.
Variable random : nat -> Q.
Variable Date_parse : string -> option Z.
Variable now : nat -> Z.
Variable Retry_After : Retry.response -> header_value.

Definition method_of (o : request_options D) : string :=
  match method o with
  | Some m => m
  | None => "GET"
  end.

Definition target (c : client) (r : route) (o : request_options D) : url :=
  {| location_of := locate c r; appended := params o |}.

Definition init_of (c : client) (o : request_options D) : init :=
  {| init_method := method_of o;
     init_headers := build_headers c (headers o);
     init_body := option_map JSON_stringify (data o) |}.

(** Lines 256-258: the options handed to [withAutomaticRetries]. *)
Definition retry_options (o : request_options D) : Retry.options :=
  {| Retry.opt_shouldRetry := Some (Replicate.shouldRetry (method_of o));
     Retry.opt_maxRetries := None;
     Retry.opt_interval := None;
     Retry.opt_jitter := None |}.

(** Lines 211-271.  The world is that of the retry controller: the calls
    of [fetch] and the sleeps. *)
Definition request (c : client) (fuel : nat) (r : route) (o : request_options D)
  : Replicate.promise Retry.response * Retry.world :=
  match Retry.withAutomaticRetries (fetch (target c r o) (init_of c o))
          random Date_parse now (retry_options o) fuel with
  | (Retry.Fulfilled response, w) =>
      if Retry.ok response then (Replicate.Resolves response, w)
      else (Replicate.Rejects (ApiError (Retry_After response)), w)
  | (Retry.Failed e, w) => (Replicate.Rejects e, w)
  | (Retry.OutOfFuel, w) => (Replicate.Pending, w)
  end.

End Request.

End Client.

(** * Properties *)

(** ** The binary encoder *)

Module EncoderFacts.
Import JS Encoder.

Lemma byteLength_alloc (n : Z) : 0 <= n -> byteLength (Buffer_alloc n) = n.
Proof.
  intros Hn. unfold byteLength, Buffer_alloc.
  rewrite List.repeat_length. apply Z2Nat.id, Hn.
Qed.

(** The leaf transformer on a buffer that fits: the counter is set to the
    length of this buffer, whatever it held before. *)
Lemma mapper_buffer_small (bytes : list byte) (t : Z) :
  byteLength bytes <= MAX_DATA_URI_SIZE ->
  mapper (VBuffer bytes) t
  = Returned (VString (data_uri "application/octet-stream" bytes), byteLength bytes).
Proof.
  intros Hle. unfold mapper, bind, set_totalBytes, get_totalBytes, ret.
  replace (0 + byteLength bytes) with (byteLength bytes) by lia.
  destruct (Z.gtb_spec (byteLength bytes) MAX_DATA_URI_SIZE) as [Hgt | _].
  - lia.
  - reflexivity.
Qed.

(** The leaf transformer on a buffer that does not fit. *)
Lemma mapper_buffer_large (bytes : list byte) (t : Z) :
  MAX_DATA_URI_SIZE < byteLength bytes ->
  mapper (VBuffer bytes) t = Returned (VNull, byteLength bytes).
Proof.
  intros Hlt. unfold mapper, bind, set_totalBytes, get_totalBytes, ret.
  replace (0 + byteLength bytes) with (byteLength bytes) by lia.
  destruct (Z.gtb_spec (byteLength bytes) MAX_DATA_URI_SIZE) as [_ | Hle].
  - reflexivity.
  - lia.
Qed.

(** Anything that is neither a buffer nor a blob comes back as it is and
    leaves the counter alone. *)
Lemma mapper_other (v : value) (t : Z) :
  Buffer_isBuffer v = false -> instanceof_Blob v = false ->
  mapper v t = Returned (v, t).
Proof.
  destruct v; simpl; intros Hbuf Hblob; try discriminate; reflexivity.
Qed.

(** A non-empty array never comes back as an array: once its first element
    has been transformed, the assignment to [copy] throws. *)
Lemma transform_array_throws (x : value) (rest : list value)
      (f : value -> M value) (t : Z) :
  exists e, transform (VArray (x :: rest)) f t = Thrown e.
Proof.
  cbn [transform]. unfold bind at 1. unfold bind at 1.
  destruct (transform x f t) as [[r t'] | e].
  - exists (TypeError "Assignment to constant variable."). reflexivity.
  - exists e. reflexivity.
Qed.

(** An object literal holding two buffers. *)
Definition two_files (a b : list byte) : value :=
  VObject literal_view [("a", VBuffer a); ("b", VBuffer b)].

Lemma transform_two_files (a b : list byte) (ra rb : value) (ta tb t : Z) :
  mapper (VBuffer a) t = Returned (ra, ta) ->
  mapper (VBuffer b) ta = Returned (rb, tb) ->
  transform (two_files a b) mapper t
  = Returned (VObject literal_view [("a", ra); ("b", rb)], tb).
Proof.
  intros Ha Hb. unfold two_files.
  cbn [transform isPlainObject literal_view string_of proto Object_constructor
       is_function instanceof_itself source_text andb negb].
  change ("[object Object]" =? "[object Object]") with true.
  change (Object_source =? Object_source) with true.
  cbn [negb andb].
  unfold bind. rewrite Ha. cbn [set_property]. rewrite Hb.
  cbn [set_property]. change ("a" =? "b") with false. reflexivity.
Qed.

Lemma binary_size_two_files (a b : list byte) :
  binary_size (two_files a b) = byteLength a + byteLength b.
Proof. unfold two_files. cbn [binary_size]. cbn. lia. Qed.

(** Two buffers that each fit are both encoded and the call returns, whatever
    their sum: the counter tested at the end holds the length of the last
    one. *)
Lemma two_files_both_encoded (a b : list byte) :
  byteLength a <= MAX_DATA_URI_SIZE ->
  byteLength b <= MAX_DATA_URI_SIZE ->
  transformFileInputs (two_files a b)
  = Returned (VObject literal_view
                [("a", VString (data_uri "application/octet-stream" a));
                 ("b", VString (data_uri "application/octet-stream" b))]).
Proof.
  intros Ha Hb. unfold transformFileInputs.
  rewrite (transform_two_files a b _ _ _ _ 0
             (mapper_buffer_small a 0 Ha)
             (mapper_buffer_small b (byteLength a) Hb)).
  destruct (Z.gtb_spec (byteLength b) MAX_DATA_URI_SIZE); [lia | reflexivity].
Qed.

(** A buffer over the ceiling followed by one that fits: the first becomes
    [null], the second is encoded, and the call returns. *)
Lemma two_files_partially_encoded (a b : list byte) :
  MAX_DATA_URI_SIZE < byteLength a ->
  byteLength b <= MAX_DATA_URI_SIZE ->
  transformFileInputs (two_files a b)
  = Returned (VObject literal_view
                [("a", VNull);
                 ("b", VString (data_uri "application/octet-stream" b))]).
Proof.
  intros Ha Hb. unfold transformFileInputs.
  rewrite (transform_two_files a b _ _ _ _ 0
             (mapper_buffer_large a 0 Ha)
             (mapper_buffer_small b (byteLength a) Hb)).
  destruct (Z.gtb_spec (byteLength b) MAX_DATA_URI_SIZE); [lia | reflexivity].
Qed.

(** When [isPlainObject] answers [true], the value is an object whose string
    conversion is ["[object Object]"] and whose prototype is [null] or
    carries the base [Object] constructor. *)
Lemma isPlainObject_true (v : value) :
  isPlainObject v = Returned true ->
  exists view properties,
    v = VObject view properties
    /\ string_of view = Some "[object Object]"
    /\ (proto view = NullPrototype
        \/ exists Ctor, proto view = Prototype (Some Ctor)
                        /\ is_function Ctor = true
                        /\ instanceof_itself Ctor = true
                        /\ source_text Ctor = Object_source).
Proof.
  destruct v as [| | | | | | | |view properties]; simpl; try discriminate.
  intros H. exists view, properties. split; [reflexivity|].
  destruct (string_of view) as [str|]; [|discriminate].
  destruct (str =? "[object Object]") eqn:Hstr; simpl in H; [|discriminate].
  apply String.eqb_eq in Hstr. subst str.
  split; [reflexivity|].
  destruct (proto view) as [|[Ctor|]]; [left; reflexivity | | discriminate].
  right. exists Ctor. injection H as H.
  apply andb_true_iff in H as [H Hsrc]. apply andb_true_iff in H as [Hf Hi].
  apply String.eqb_eq in Hsrc. auto.
Qed.

(** Maps, sets, dates and class instances come back from the encoder as they
    went in. *)
Example instances_pass_through :
  transformFileInputs a_Map = Returned a_Map
  /\ transformFileInputs a_Set = Returned a_Set
  /\ transformFileInputs a_Date = Returned a_Date
  /\ transformFileInputs a_class_instance = Returned a_class_instance.
Proof. repeat split; reflexivity. Qed.

(** An object created with a [null] prototype and nothing to convert it to a
    string is neither walked nor handed to the leaf transformer:
    [String(value)] throws inside [isPlainObject]. *)
Example bare_object_throws (f : value -> M value) (t : Z) :
  transform (VObject bare_view []) f t
  = Thrown (TypeError "Cannot convert object to primitive value").
Proof. reflexivity. Qed.

(** *** The payload decodes back *)

Lemma base64_value_digit (k : N) :
  (k < 64)%N -> base64_value (base64_digit k) = Some k.
Proof.
  intros Hk.
  assert (Hall : List.forallb
                   (fun i => match base64_value (base64_digit (N.of_nat i)) with
                             | Some j => N.eqb j (N.of_nat i)
                             | None => false
                             end) (List.seq 0 64) = true)
    by (vm_compute; reflexivity).
  rewrite List.forallb_forall in Hall.
  specialize (Hall (N.to_nat k)). rewrite N2Nat.id in Hall.
  destruct (base64_value (base64_digit k)) as [j|].
  - f_equal. apply N.eqb_eq. apply Hall. apply List.in_seq. lia.
  - discriminate Hall. apply List.in_seq. lia.
Qed.

Local Open Scope N_scope.

Lemma split_group (A B C : N) :
  A <= 255 -> B <= 255 -> C <= 255 ->
  let n := A * 65536 + B * 256 + C in
  n / 65536 = A /\ (n / 256) mod 256 = B /\ n mod 256 = C /\ n < 16777216.
Proof.
  intros HA HB HC n. subst n.
  assert (H256 : (A * 65536 + B * 256 + C) / 256 = A * 256 + B)
    by (symmetry; apply (N.div_unique _ _ _ C); lia).
  repeat split.
  - symmetry. apply (N.div_unique _ _ _ (B * 256 + C)); lia.
  - rewrite H256. symmetry. apply (N.mod_unique _ _ A); lia.
  - symmetry. apply (N.mod_unique _ _ (A * 256 + B)); lia.
  - lia.
Qed.

Lemma digits_of_group (n : N) :
  n < 16777216 ->
  n / 262144 < 64 /\ (n / 4096) mod 64 < 64 /\ (n / 64) mod 64 < 64 /\ n mod 64 < 64
  /\ n / 262144 * 262144 + (n / 4096) mod 64 * 4096 + (n / 64) mod 64 * 64 + n mod 64 = n.
Proof.
  intros Hn.
  assert (H64 : forall m, m mod 64 < 64) by (intros m; apply N.mod_lt; lia).
  repeat split; try apply H64.
  - apply N.Div0.div_lt_upper_bound; lia.
  - pose proof (N.div_mod n 64 ltac:(lia)) as E1.
    pose proof (N.div_mod (n / 64) 64 ltac:(lia)) as E2.
    pose proof (N.div_mod (n / 64 / 64) 64 ltac:(lia)) as E3.
    rewrite N.Div0.div_div in E2, E3. rewrite N.Div0.div_div in E3.
    change (64 * 64) with 4096 in *. change (4096 * 64) with 262144 in *.
    assert (Hsmall : n / 262144 < 64) by (apply N.Div0.div_lt_upper_bound; lia).
    lia.
Qed.

Local Close Scope N_scope.

Lemma bytes_of_three (a b c : byte) (count : nat) :
  bytes_of (Byte.to_N a * 65536 + Byte.to_N b * 256 + Byte.to_N c) count
  = Some (List.firstn count [a; b; c]).
Proof.
  destruct (split_group _ _ _ (Byte.to_N_bounded a) (Byte.to_N_bounded b)
              (Byte.to_N_bounded c)) as (H1 & H2 & H3 & _).
  unfold bytes_of. rewrite H1, H2, H3, !Byte.of_to_N. reflexivity.
Qed.

(** Decoding one group of four characters, full or padded. *)
Lemma decode_group (n : N) (rest : string) :
  (n < 16777216)%N ->
  base64_decode
    (String (base64_digit (n / 262144))
       (String (base64_digit ((n / 4096) mod 64))
          (String (base64_digit ((n / 64) mod 64))
             (String (base64_digit (n mod 64)) rest))))
  = match bytes_of n 3, base64_decode rest with
    | Some group, Some tail => Some (group ++ tail)%list
    | _, _ => None
    end.
Proof.
  intros Hn. destruct (digits_of_group n Hn) as (H1 & H2 & H3 & H4 & Hsum).
  cbn [base64_decode].
  rewrite !base64_value_digit by assumption. rewrite Hsum. reflexivity.
Qed.

Lemma decode_group_padded_once (n : N) :
  (n < 16777216)%N -> (n mod 64 = 0)%N ->
  base64_decode
    (String (base64_digit (n / 262144))
       (String (base64_digit ((n / 4096) mod 64))
          (String (base64_digit ((n / 64) mod 64)) "=")))
  = bytes_of n 2.
Proof.
  intros Hn H0. destruct (digits_of_group n Hn) as (H1 & H2 & H3 & H4 & Hsum).
  cbn [base64_decode].
  rewrite !base64_value_digit by assumption.
  change (base64_value "=") with (@None N). cbn [Ascii.eqb Bool.eqb andb String.eqb].
  rewrite H0, N.add_0_r in Hsum. rewrite Hsum. reflexivity.
Qed.

Lemma decode_group_padded_twice (n : N) :
  (n < 16777216)%N -> (n mod 64 = 0)%N -> ((n / 64) mod 64 = 0)%N ->
  base64_decode
    (String (base64_digit (n / 262144))
       (String (base64_digit ((n / 4096) mod 64)) "=="))
  = bytes_of n 1.
Proof.
  intros Hn H0 H0'. destruct (digits_of_group n Hn) as (H1 & H2 & H3 & H4 & Hsum).
  cbn [base64_decode].
  rewrite !base64_value_digit by assumption.
  change (base64_value "=") with (@None N). cbn [Ascii.eqb Bool.eqb andb String.eqb].
  rewrite H0, H0', N.add_0_r, N.mul_0_l, N.add_0_r in Hsum. rewrite Hsum. reflexivity.
Qed.

Lemma list_ind3 {A} (P : list A -> Prop) :
  P [] -> (forall a, P [a]) -> (forall a b, P [a; b]) ->
  (forall a b c rest, P rest -> P (a :: b :: c :: rest)) ->
  forall l, P l.
Proof.
  intros H0 H1 H2 H3.
  fix IH 1. intros [|a [|b [|c rest]]];
    [exact H0 | apply H1 | apply H2 | apply H3; apply IH].
Qed.

(** Decoding the payload gives the bytes back. *)
Theorem base64_decode_encode (bytes : list byte) :
  base64_decode (base64 bytes) = Some bytes.
Proof.
  induction bytes as [|a|a b|a b c rest IH] using list_ind3.
  - reflexivity.
  - pose proof (Byte.to_N_bounded a) as Ha.
    cbn [base64]. cbv zeta.
    rewrite decode_group_padded_twice.
    + replace (Byte.to_N a * 65536)%N
        with (Byte.to_N a * 65536 + Byte.to_N x00 * 256 + Byte.to_N x00)%N
        by (cbn [Byte.to_N]; lia).
      apply bytes_of_three.
    + lia.
    + apply N.Div0.mod_divides. exists (Byte.to_N a * 1024)%N. lia.
    + replace (Byte.to_N a * 65536 / 64)%N with (Byte.to_N a * 1024)%N
        by (apply (N.div_unique _ _ _ 0%N); lia).
      apply N.Div0.mod_divides. exists (Byte.to_N a * 16)%N. lia.
  - pose proof (Byte.to_N_bounded a) as Ha.
    pose proof (Byte.to_N_bounded b) as Hb.
    cbn [base64]. cbv zeta.
    rewrite decode_group_padded_once.
    + replace (Byte.to_N a * 65536 + Byte.to_N b * 256)%N
        with (Byte.to_N a * 65536 + Byte.to_N b * 256 + Byte.to_N x00)%N
        by (cbn [Byte.to_N]; lia).
      apply bytes_of_three.
    + lia.
    + apply N.Div0.mod_divides.
      exists (Byte.to_N a * 1024 + Byte.to_N b * 4)%N. lia.
  - cbn [base64]. cbv zeta.
    destruct (split_group _ _ _ (Byte.to_N_bounded a) (Byte.to_N_bounded b)
                (Byte.to_N_bounded c)) as (_ & _ & _ & Hn).
    rewrite decode_group by exact Hn.
    rewrite bytes_of_three, IH. reflexivity.
Qed.


(** *** Trees without arrays *)

(** The loop over the keys of a plain object, on its own. *)
Definition for_keys (f : value -> M value)
  : list (string * value) -> list (string * value) -> M (list (string * value)) :=
  fix for_keys (props copy : list (string * value)) :=
    match props with
    | [] => ret copy
    | (key, val) :: rest =>
        bind (f val) (fun r => for_keys rest (set_property copy key r))
    end.

Lemma transform_plain_object (view : object_view)
      (properties : list (string * value)) (f : value -> M value) :
  isPlainObject (VObject view properties) = Returned true ->
  transform (VObject view properties) f
  = bind (for_keys (fun v => transform v f) properties [])
         (fun copy => ret (VObject literal_view copy)).
Proof. intros H. cbn [transform]. rewrite H. reflexivity. Qed.

Lemma set_property_fresh (copy : list (string * value)) (key : string) (v : value) :
  List.existsb (String.eqb key) (List.map fst copy) = false ->
  set_property copy key v = (copy ++ [(key, v)])%list.
Proof.
  induction copy as [|[k old] copy IH]; intros H; [reflexivity|].
  cbn [List.map fst List.existsb] in H. apply orb_false_iff in H as [Hk H].
  cbn [set_property]. rewrite String.eqb_sym, Hk. cbn [List.app].
  rewrite IH by exact H. reflexivity.
Qed.


Section ValueInduction.

Variable P : value -> Prop.
Hypothesis P_leaf :
  forall v, match v with VArray _ | VObject _ _ => False | _ => True end -> P v.
Hypothesis P_array : forall elements, List.Forall P elements -> P (VArray elements).
Hypothesis P_object :
  forall view properties,
    List.Forall (fun kv => P (snd kv)) properties -> P (VObject view properties).

Fixpoint value_nested_ind (v : value) : P v :=
  match v with
  | VArray elements =>
      P_array elements
        ((fix go (l : list value) : List.Forall P l :=
            match l with
            | [] => List.Forall_nil _
            | x :: r => List.Forall_cons _ (value_nested_ind x) (go r)
            end) elements)
  | VObject view properties =>
      P_object view properties
        ((fix go (l : list (string * value))
            : List.Forall (fun kv => P (snd kv)) l :=
            match l with
            | [] => List.Forall_nil _
            | kv :: r => List.Forall_cons _ (value_nested_ind (snd kv)) (go r)
            end) properties)
  | VUndefined => P_leaf VUndefined I
  | VNull => P_leaf VNull I
  | VBoolean b => P_leaf (VBoolean b) I
  | VNumber n => P_leaf (VNumber n) I
  | VString s => P_leaf (VString s) I
  | VBuffer bytes => P_leaf (VBuffer bytes) I
  | VBlob type bytes => P_leaf (VBlob type bytes) I
  end.

End ValueInduction.

(** The sizes and the walkability of the properties of an object. *)
Definition sizes : list (string * value) -> Z :=
  fix sum (l : list (string * value)) : Z :=
    match l with [] => 0 | (_, x) :: r => binary_size x + sum r end.

Definition all_walkable : list (string * value) -> bool :=
  fix all (l : list (string * value)) : bool :=
    match l with [] => true | (_, x) :: r => walkable x && all r end.

Lemma byteLength_nonneg (bytes : list byte) : 0 <= byteLength bytes.
Proof. unfold byteLength. lia. Qed.

Lemma binary_size_nonneg (v : value) : 0 <= binary_size v.
Proof.
  induction v as [v Hv | elements IH | view properties IH] using value_nested_ind.
  - destruct v; try contradiction; cbn [binary_size];
      try apply byteLength_nonneg; lia.
  - cbn [binary_size]. induction IH as [|x r Hx _ IHr]; [lia|]. lia.
  - cbn [binary_size].
    destruct (isPlainObject (VObject view properties)) as [[|]|]; try lia.
    induction IH as [|[k x] r Hx _ IHr]; [lia|]. cbn [snd] in Hx. lia.
Qed.

Lemma sizes_nonneg (l : list (string * value)) : 0 <= sizes l.
Proof.
  induction l as [|[k x] r IH]; cbn [sizes]; [lia|].
  pose proof (binary_size_nonneg x). fold sizes. lia.
Qed.

(** What the traversal is shown to do on one value. *)
Definition encodes (v : value) : Prop :=
  walkable v = true ->
  forall t, binary_size v <= MAX_DATA_URI_SIZE -> t <= MAX_DATA_URI_SIZE ->
  exists t', transform v mapper t = Returned (encoded v, t')
             /\ t' <= MAX_DATA_URI_SIZE.

Lemma for_keys_encodes (props : list (string * value)) :
  List.Forall (fun kv => encodes (snd kv)) props ->
  forall copy t,
    distinct (List.map fst props) = true ->
    (forall k, List.In k (List.map fst props) ->
               List.existsb (String.eqb k) (List.map fst copy) = false) ->
    all_walkable props = true ->
    sizes props <= MAX_DATA_URI_SIZE ->
    t <= MAX_DATA_URI_SIZE ->
    exists t',
      for_keys (fun v => transform v mapper) props copy t
      = Returned ((copy ++ List.map (fun kv => (fst kv, encoded (snd kv))) props)%list, t')
      /\ t' <= MAX_DATA_URI_SIZE.
Proof.
  induction 1 as [|[key val] rest Hval _ IH];
    intros copy t Hdistinct Hfresh Hwalk Hsize Ht.
  - exists t. cbn [for_keys List.map]. rewrite app_nil_r. split; [reflexivity | exact Ht].
  - cbn [List.map fst distinct] in Hdistinct.
    apply andb_true_iff in Hdistinct as [Hkey Hdistinct].
    apply negb_true_iff in Hkey.
    cbn [all_walkable] in Hwalk. fold all_walkable in Hwalk.
    apply andb_true_iff in Hwalk as [Hwv Hwrest].
    cbn [sizes] in Hsize. fold sizes in Hsize.
    pose proof (binary_size_nonneg val) as Hv0.
    pose proof (sizes_nonneg rest) as Hr0.
    cbn [snd] in Hval.
    destruct (Hval Hwv t ltac:(lia) Ht) as (t1 & Hrun & Ht1).
    cbn [for_keys]. fold (for_keys (fun v => transform v mapper)).
    unfold bind at 1. rewrite Hrun.
    rewrite set_property_fresh by (apply Hfresh; left; reflexivity).
    destruct (IH (copy ++ [(key, encoded val)])%list t1 Hdistinct) as (t' & Hrest & Ht');
      try assumption; try lia.
    + intros k Hk. rewrite List.map_app, List.existsb_app.
      rewrite (Hfresh k) by (right; exact Hk). cbn [List.map fst List.existsb orb].
      rewrite orb_false_r.
      destruct (String.eqb_spec k key) as [->|Hne]; [|reflexivity].
      exfalso. rewrite <- Bool.not_true_iff_false in Hkey. apply Hkey.
      apply List.existsb_exists. exists key. split; [exact Hk | apply String.eqb_refl].
    + exists t'. split; [|exact Ht'].
      rewrite Hrest. cbn [List.map fst snd]. rewrite <- app_assoc. reflexivity.
Qed.

Lemma transform_encodes (v : value) : encodes v.
Proof.
  induction v as [v Hv | elements IH | view properties IH] using value_nested_ind;
    unfold encodes; intros Hwalk t Hsize Ht.
  - destruct v; try contradiction; cbn [transform encoded];
      try (exists t; split; [reflexivity | exact Ht]).
    + cbn [binary_size] in Hsize. exists (byteLength bytes).
      split; [apply mapper_buffer_small; exact Hsize | exact Hsize].
    + cbn [binary_size] in Hsize. cbn [walkable] in Hwalk.
      apply negb_true_iff in Hwalk. rewrite Hwalk.
      exists (byteLength bytes). split; [|exact Hsize].
      unfold mapper, bind, set_totalBytes, get_totalBytes, ret.
      replace (0 + byteLength bytes) with (byteLength bytes) by lia.
      destruct (Z.gtb_spec (byteLength bytes) MAX_DATA_URI_SIZE); [lia | reflexivity].
  - destruct elements as [|x r]; [|discriminate Hwalk].
    exists t. split; [reflexivity | exact Ht].
  - cbn [walkable] in Hwalk. cbn [binary_size] in Hsize. cbn [encoded].
    destruct (isPlainObject (VObject view properties)) as [[|]|e] eqn:Hplain;
      [| |discriminate Hwalk].
    + apply andb_true_iff in Hwalk as [Hkeys Hall].
      apply andb_true_iff in Hkeys as [Hdistinct _].
      rewrite (transform_plain_object view properties mapper Hplain).
      destruct (for_keys_encodes properties IH [] t Hdistinct) as (t' & Hrun & Ht');
        try assumption.
      * intros k _. reflexivity.
      * exists t'. split; [|exact Ht']. unfold bind. rewrite Hrun. reflexivity.
    + exists t. split; [|exact Ht].
      cbn [transform]. rewrite Hplain. reflexivity.
Qed.

(** On a tree without arrays whose binary leaves add up to the ceiling at
    most, [transformFileInputs] returns the encoding: every buffer and typed
    blob replaced by its data URI, every plain object rebuilt with its keys,
    the rest unchanged. *)
Theorem transformFileInputs_without_arrays (v : value) :
  walkable v = true ->
  binary_size v <= MAX_DATA_URI_SIZE ->
  transformFileInputs v = Returned (encoded v).
Proof.
  intros Hwalk Hsize. unfold transformFileInputs.
  destruct (transform_encodes v Hwalk 0 Hsize) as (t' & Hrun & Ht');
    [unfold MAX_DATA_URI_SIZE; lia|].
  rewrite Hrun. destruct (Z.gtb_spec t' MAX_DATA_URI_SIZE); [lia | reflexivity].
Qed.

(** A buffer gets the generic MIME type; a blob keeps its own, also when
    it is the empty string of a blob built without one. *)
Example mime_of_leaves :
  transformFileInputs (VBuffer [x68; x69])
  = Returned (VString "data:application/octet-stream;base64,aGk=")
  /\ transformFileInputs (VBlob "image/png" [x68; x69])
     = Returned (VString "data:image/png;base64,aGk=")
  /\ transformFileInputs (VBlob "" [x68; x69])
     = Returned (VString "data:;base64,aGk=").
Proof. repeat split; reflexivity. Qed.

(** C1, as the code has it: the claim promises that arrays are rebuilt
    positionally with the same length; [transformFileInputs] instead throws
    on every non-empty array, at the root or below an object, even when the
    tree holds no binary data at all.  The array loop assigns to its [const]
    accumulator. *)
Theorem transformFileInputs_throws_on_arrays :
  (forall x rest, exists e, transformFileInputs (VArray (x :: rest)) = Thrown e)
  /\ transformFileInputs (VArray [VNumber (of_Z 1)])
     = Thrown (TypeError "Assignment to constant variable.")
  /\ transformFileInputs
       (VObject literal_view [("images", VArray [VBuffer [x68; x69]])])
     = Thrown (TypeError "Assignment to constant variable.").
Proof.
  split; [|split; reflexivity].
  intros x rest. unfold transformFileInputs.
  destruct (transform_array_throws x rest mapper 0) as [e ->].
  exists e. reflexivity.
Qed.

(** C2, as the code has it: the claim promises a total accumulated over all
    binary leaves and a size-limit error whenever the aggregate is over the
    ceiling.  With two buffers of 6,000,000 bytes (12,000,000 in all) the
    call returns both encoded; with a buffer of 10,000,001 bytes followed by
    a two-byte one it returns [null] for the first and the encoding of the
    second.  The counter is overwritten at every leaf. *)
Theorem transformFileInputs_counts_last_leaf_only :
  binary_size (two_files (Buffer_alloc 6000000) (Buffer_alloc 6000000)) = 12000000
  /\ transformFileInputs (two_files (Buffer_alloc 6000000) (Buffer_alloc 6000000))
     = Returned (VObject literal_view
         [("a", VString (data_uri "application/octet-stream" (Buffer_alloc 6000000)));
          ("b", VString (data_uri "application/octet-stream" (Buffer_alloc 6000000)))])
  /\ transformFileInputs (two_files (Buffer_alloc 10000001) [x68; x69])
     = Returned (VObject literal_view
         [("a", VNull);
          ("b", VString "data:application/octet-stream;base64,aGk=")]).
Proof.
  assert (H6 : byteLength (Buffer_alloc 6000000) = 6000000)
    by (apply byteLength_alloc; lia).
  assert (H10 : byteLength (Buffer_alloc 10000001) = 10000001)
    by (apply byteLength_alloc; lia).
  split; [|split].
  - rewrite binary_size_two_files, H6. reflexivity.
  - apply two_files_both_encoded; rewrite H6; unfold MAX_DATA_URI_SIZE; lia.
  - rewrite two_files_partially_encoded.
    + reflexivity.
    + rewrite H10. unfold MAX_DATA_URI_SIZE. lia.
    + unfold MAX_DATA_URI_SIZE, byteLength. simpl. lia.
Qed.

(** Where [isPlainObject] answers, the traversal classifies as documented:
    only arrays and values that [isPlainObject] accepts are walked, and
    those are objects with a [null] prototype or the base [Object]
    constructor; any other value (one that is not an array and that
    [isPlainObject] rejects) is handed as it is to the leaf transformer, and
    the encoder's leaf transformer returns it unchanged, without touching
    the byte counter, when it is neither a [Buffer] nor a [Blob]. *)
Theorem only_arrays_and_plain_objects_are_walked (v : value) (t : Z) :
  (Array_isArray v = false -> isPlainObject v = Returned false ->
   forall f : value -> M value, transform v f t = f v t)
  /\ (isPlainObject v = Returned true ->
      exists view properties,
        v = VObject view properties
        /\ (proto view = NullPrototype
            \/ exists Ctor, proto view = Prototype (Some Ctor)
                            /\ source_text Ctor = Object_source))
  /\ (Buffer_isBuffer v = false -> instanceof_Blob v = false ->
      mapper v t = Returned (v, t)).
Proof.
  split; [|split].
  - intros Harr Hplain f.
    destruct v; try reflexivity; try discriminate.
    cbn [transform]. rewrite Hplain. reflexivity.
  - intros H. destruct (isPlainObject_true v H) as (view & props & -> & _ & Hp).
    exists view, props. split; [reflexivity|].
    destruct Hp as [Hp | (Ctor & Hp & _ & _ & Hs)]; [left; exact Hp|].
    right. exists Ctor. auto.
  - apply mapper_other.
Qed.

(** At a date: it is no array, [isPlainObject] rejects it, and it is neither
    buffer nor blob, so it goes to the leaf transformer and comes back.  At
    an empty object literal: [isPlainObject] accepts it, and its prototype
    carries the base [Object] constructor. *)
Lemma only_arrays_and_plain_objects_are_walked_witness :
  (transform a_Date mapper 0 = mapper a_Date 0
   /\ mapper a_Date 0 = Returned (a_Date, 0))
  /\ exists view properties,
       VObject literal_view [] = VObject view properties
       /\ (proto view = NullPrototype
           \/ exists Ctor, proto view = Prototype (Some Ctor)
                           /\ source_text Ctor = Object_source).
Proof.
  split.
  - destruct (only_arrays_and_plain_objects_are_walked a_Date 0)
      as (Hleaf & _ & Hsame).
    split.
    + apply Hleaf; reflexivity.
    + apply Hsame; reflexivity.
  - destruct (only_arrays_and_plain_objects_are_walked (VObject literal_view []) 0)
      as (_ & Hplain & _).
    apply Hplain. reflexivity.
Defined.

(** The view of [Object.create(Object.create(null))]: an object that is not
    plain (its prototype is an object without a constructor) and that
    reaches no [toString] or [valueOf] either. *)
Definition orphan_view : object_view :=
  {| string_of := None; proto := Prototype None |}.

(** The view of a [null]-prototype object that does convert to
    ["[object Object]"], through a [toString] of its own. *)
Definition convertible_bare_view : object_view :=
  {| string_of := Some "[object Object]"; proto := NullPrototype |}.

(** C10, as the code has it: the claim counts objects with a [null]
    prototype among the containers and promises that every other value is
    handed to the leaf transformer.  [isPlainObject] has a branch that
    accepts a [null] prototype, but it evaluates [String(value)] before it
    gets there: on [Object.create(null)], with or without properties, at the
    root or below an object literal, the traversal throws a [TypeError]
    instead of walking it, and no leaf transformer is called; an object that
    is no container and that cannot be converted to a string throws the same
    way instead of reaching the leaf transformer.  An object literal with
    the same property is walked and returned, and a [null]-prototype object
    that does convert is accepted. *)
Theorem null_prototype_objects_are_not_walked :
  (forall properties (f : value -> M value) t,
      transform (VObject bare_view properties) f t
      = Thrown (TypeError "Cannot convert object to primitive value"))
  /\ transformFileInputs (VObject bare_view [("prompt", VString "hi")])
     = Thrown (TypeError "Cannot convert object to primitive value")
  /\ transformFileInputs
       (VObject literal_view
          [("input", VObject bare_view [("prompt", VString "hi")])])
     = Thrown (TypeError "Cannot convert object to primitive value")
  /\ transformFileInputs (VObject orphan_view [])
     = Thrown (TypeError "Cannot convert object to primitive value")
  /\ transformFileInputs (VObject literal_view [("prompt", VString "hi")])
     = Returned (VObject literal_view [("prompt", VString "hi")])
  /\ (forall properties,
         isPlainObject (VObject convertible_bare_view properties) = Returned true).
Proof. repeat split; reflexivity. Qed.

End EncoderFacts.

(** ** The retry controller *)

Module RetryFacts.
Import JS Retry.

(** *** Numbers *)

Lemma Qred_inject_Z (z : Z) : Qred (inject_Z z) = inject_Z z.
Proof. apply Qcanon.Qred_identity. simpl. apply Z.gcd_1_r. Qed.

Lemma num_eq_integer (q : Q) (z : Z) :
  num_eq (Fin q) (of_Z z) -> Qred q = inject_Z z.
Proof.
  simpl. intros H. rewrite (Qred_complete _ _ H). apply Qred_inject_Z.
Qed.

Lemma isInteger_of_Z (m : num) (z : Z) :
  num_eq m (of_Z z) -> Number_isInteger m = true.
Proof.
  destruct m as [|q]; simpl; [tauto|]. intros H.
  change (q == inject_Z z)%Q in H.
  rewrite (num_eq_integer q z H). reflexivity.
Qed.

Lemma gt_of_Z (m : num) (z y : Z) :
  num_eq m (of_Z z) -> gt m (of_Z y) = (y <? z)%Z.
Proof.
  destruct m as [|q]; simpl; [tauto|]. intros H.
  destruct (Z.ltb_spec y z) as [Hlt|Hge].
  - apply negb_true_iff. destruct (Qle_bool q (inject_Z y)) eqn:E; [|reflexivity].
    apply Qle_bool_iff in E. rewrite H in E. rewrite <- Zle_Qle in E. lia.
  - apply negb_false_iff. apply Qle_bool_iff. rewrite H. rewrite <- Zle_Qle. lia.
Qed.

Lemma lt_of_nat (m : num) (N a : nat) :
  num_eq m (of_nat N) -> lt (of_nat a) m = (a <? N)%nat.
Proof.
  intros H. unfold lt, of_nat at 1. rewrite (gt_of_Z m _ _ H).
  destruct (Nat.ltb_spec a N); [apply Z.ltb_lt | apply Z.ltb_ge]; lia.
Qed.


(** *** The loop *)

Section Loop.

Variable request : nat -> settled.
Variable random : nat -> Q.
Variable Date_parse : string -> option Z.
Variable now : nat -> Z.
Variable o : options.

#[local] Abbreviation loop := (retry_loop request random Date_parse now o).
#[local] Abbreviation run_to_end := (withAutomaticRetries request random Date_parse now o).

(** An attempt that the loop does not return from: the request rejected, or
    resolved with a response that is neither [ok] nor exempt from retry. *)
Definition retried (s : settled) : bool :=
  match s with
  | Resolved response => negb (ok response || negb (shouldRetry o response))
  | Rejected _ => true
  end.

(** What line 68 makes of the final request. *)
Definition final_outcome (s : settled) : outcome :=
  match s with
  | Resolved response => Fulfilled response
  | Rejected e => Failed e
  end.

Lemma maxRetries_finite : exists q, maxRetries o = Fin q.
Proof.
  unfold maxRetries, or_default.
  destruct (opt_maxRetries o) as [[|q]|]; simpl; try (eexists; reflexivity).
  destruct (negb (Qeq_bool q 0)); eexists; reflexivity.
Qed.

Lemma requests_after_attempt delay a w :
  requests (snd (after_attempt o delay a w)) = requests w.
Proof.
  unfold after_attempt.
  destruct (Number_isInteger (maxRetries o) && gt (maxRetries o) (of_Z 0));
    [|reflexivity].
  simpl. destruct (Number_isInteger delay && gt delay (of_Z 0)); reflexivity.
Qed.

(** One iteration, seen from outside: either the loop returns the response
    of this attempt, or the attempt was a retried one and the loop goes on
    from a world with one more request. *)
Lemma loop_step fuel a w :
  loop (S fuel) a w
  = if retried (request (requests w))
    then
      let delay :=
        match request (requests w) with
        | Resolved _ => provisional_delay o a (random (draws w))
        | Rejected e =>
            delay_after_error Date_parse
              (provisional_delay o a (random (draws w))) e (now (requests w))
        end in
      let w1 := snd (call_request request (snd (call_random random w))) in
      let aw := after_attempt o delay a w1 in
      if lt (of_nat (fst aw)) (maxRetries o)
      then loop fuel (fst aw) (snd aw)
      else final_request request (snd aw)
    else
      (final_outcome (request (requests w)),
       snd (call_request request (snd (call_random random w)))).
Proof.
  cbn [retry_loop call_random call_request requests draws snd fst].
  rewrite Nat.sub_succ, Nat.sub_0_r.
  destruct (request (requests w)) as [response | e]; cbn [retried final_outcome].
  - destruct (ok response || negb (shouldRetry o response)); cbn [negb].
    + reflexivity.
    + destruct (after_attempt _ _ _ _); reflexivity.
  - destruct (after_attempt _ _ _ _); reflexivity.
Qed.

Lemma final_request_eq w :
  final_request request w
  = (final_outcome (request (requests w)), snd (call_request request w)).
Proof.
  unfold final_request. cbn [call_request snd].
  destruct (request (requests w)); reflexivity.
Qed.

Section IntegerBudget.

(** The configured budget is the positive integer [N]. *)
Variable N : nat.
Hypothesis N_positive : (0 < N)%nat.
Hypothesis maxRetries_is_N : num_eq (maxRetries o) (of_nat N).

Lemma guard_holds :
  Number_isInteger (maxRetries o) && gt (maxRetries o) (of_Z 0) = true.
Proof.
  rewrite (isInteger_of_Z _ _ maxRetries_is_N).
  unfold of_nat in maxRetries_is_N. rewrite (gt_of_Z _ _ 0 maxRetries_is_N).
  apply Z.ltb_lt. lia.
Qed.

Lemma attempts_after_attempt delay a w :
  fst (after_attempt o delay a w) = S a.
Proof. unfold after_attempt. rewrite guard_holds. reflexivity. Qed.

(** With [k] iterations left and fuel for them, the loop ends, and more
    fuel does not change how. *)
Lemma loop_terminates :
  forall k fuel a w,
    (a + k = N)%nat -> (k <= fuel)%nat -> (0 < k)%nat ->
    fst (loop fuel a w) <> OutOfFuel.
Proof.
  induction k as [|k IH]; intros fuel a w Ha Hfuel Hk; [lia|].
  destruct fuel as [|fuel]; [lia|].
  rewrite loop_step.
  destruct (retried (request (requests w))).
  - cbv zeta. rewrite attempts_after_attempt.
    rewrite (lt_of_nat _ N _ maxRetries_is_N).
    destruct (Nat.ltb_spec (S a) N) as [Hlt|Hge].
    + apply IH; lia.
    + rewrite final_request_eq. cbn [fst].
      destruct (request _); discriminate.
  - cbn [fst]. destruct (request _); discriminate.
Qed.

(** If the loop fails, it has made all the requests of the budget and one
    more, and the failure is the rejection of the last one. *)
Lemma loop_failed :
  forall fuel a w e w',
    (a < N)%nat ->
    loop fuel a w = (Failed e, w') ->
    requests w' = (requests w + (N - a) + 1)%nat
    /\ request (requests w' - 1) = Rejected e.
Proof.
  induction fuel as [|fuel IH]; intros a w e w' Ha H; [discriminate|].
  rewrite loop_step in H.
  destruct (retried (request (requests w))) eqn:Hr.
  - cbv zeta in H. rewrite attempts_after_attempt in H.
    rewrite (lt_of_nat _ N _ maxRetries_is_N) in H.
    destruct (Nat.ltb_spec (S a) N) as [Hlt|Hge].
    + apply IH in H; [|exact Hlt].
      rewrite requests_after_attempt in H. cbn [call_request call_random requests snd] in H.
      destruct H as [H1 H2]. split; [lia | exact H2].
    + rewrite final_request_eq in H. injection H as Hout Hw. subst w'.
      cbn [call_request requests snd]. rewrite requests_after_attempt.
      cbn [call_request call_random requests snd].
      rewrite requests_after_attempt in Hout.
      cbn [call_request call_random requests snd] in Hout.
      split; [lia|].
      rewrite Nat.sub_succ, Nat.sub_0_r.
      destruct (request (S (requests w))); [discriminate|].
      injection Hout as ->. reflexivity.
  - injection H as Hout Hw. destruct (request (requests w)) as [r|e0]; [discriminate|].
    discriminate.
Qed.

(** When every attempt of the loop is a retried one, the outcome is that of
    the request after them, whatever it is. *)
Lemma loop_exhausted :
  forall k fuel a w,
    (a + k = N)%nat -> (k <= fuel)%nat -> (0 < k)%nat ->
    (forall i, (i < k)%nat -> retried (request (requests w + i)) = true) ->
    fst (loop fuel a w) = final_outcome (request (requests w + k))
    /\ requests (snd (loop fuel a w)) = (requests w + k + 1)%nat.
Proof.
  induction k as [|k IH]; intros fuel a w Ha Hfuel Hk Hall; [lia|].
  destruct fuel as [|fuel]; [lia|].
  rewrite loop_step.
  assert (H0 : retried (request (requests w)) = true).
  { specialize (Hall 0%nat). rewrite Nat.add_0_r in Hall. apply Hall. lia. }
  rewrite H0. cbv zeta. rewrite attempts_after_attempt.
  rewrite (lt_of_nat _ N _ maxRetries_is_N).
  match goal with
  | |- context [final_request request ?w1] => set (W := w1)
  end.
  assert (HW : requests W = S (requests w))
    by (subst W; rewrite requests_after_attempt; reflexivity).
  clearbody W.
  destruct (Nat.ltb_spec (S a) N) as [Hlt|Hge].
  - destruct (IH fuel (S a) W) as [H1 H2]; try lia.
    + intros i Hi. rewrite HW.
      replace (S (requests w) + i)%nat with (requests w + S i)%nat by lia.
      apply Hall. lia.
    + rewrite H1, H2, HW. split; [f_equal; f_equal; lia | lia].
  - assert (k = 0)%nat by lia. subst k.
    rewrite final_request_eq. cbn [fst snd call_request requests].
    rewrite HW. split; [f_equal; f_equal; lia | lia].
Qed.

End IntegerBudget.


Lemma trace_after_attempt delay a w :
  trace (snd (after_attempt o delay a w)) = trace w
  \/ trace (snd (after_attempt o delay a w))
     = (trace w ++ [Sleep (sleep_duration o)])%list.
Proof.
  unfold after_attempt.
  destruct (Number_isInteger (maxRetries o) && gt (maxRetries o) (of_Z 0));
    [|left; reflexivity].
  cbn [snd]. destruct (Number_isInteger delay && gt delay (of_Z 0));
    [right|left]; reflexivity.
Qed.

(** Every sleep of a call lasts [sleep_duration], whatever the attempt it
    follows and whatever delay was computed for it. *)
Lemma every_sleep_lasts_sleep_duration :
  forall fuel a w ms,
    In (Sleep ms) (trace (snd (loop fuel a w))) ->
    In (Sleep ms) (trace w) \/ ms = sleep_duration o.
Proof.
  induction fuel as [|fuel IH]; intros a w ms H; [left; exact H|].
  rewrite loop_step in H.
  destruct (retried (request (requests w))).
  - cbv zeta in H.
    match type of H with
    | context [after_attempt o ?d a ?w1] =>
        pose proof (trace_after_attempt d a w1) as Ht;
        set (aw := after_attempt o d a w1) in *
    end.
    cbn [call_request call_random snd trace] in Ht.
    assert (Haw : In (Sleep ms) (trace (snd aw)) ->
                  In (Sleep ms) (trace w) \/ ms = sleep_duration o).
    { intros Hin. destruct Ht as [Ht | Ht]; rewrite Ht in Hin;
        repeat (apply in_app_or in Hin; destruct Hin as [Hin | Hin]);
        try (left; exact Hin);
        destruct Hin as [Hin | []]; try discriminate.
      injection Hin as ->. right. reflexivity. }
    destruct (lt (of_nat (fst aw)) (maxRetries o)).
    + apply IH in H. destruct H as [H | H]; [apply Haw, H | right; exact H].
    + rewrite final_request_eq in H. cbn [snd call_request trace] in H.
      apply in_app_or in H. destruct H as [H | [H | []]];
        [apply Haw, H | discriminate].
  - cbn [snd call_request call_random trace] in H.
    apply in_app_or in H. destruct H as [H | [H | []]];
      [left; exact H | discriminate].
Qed.

(** [n] requests are at least [m] of them. *)
Definition at_least (n : nat) (m : num) : Prop :=
  match m with
  | Fin q => (q <= inject_Z (Z.of_nat n))%Q
  | NaN => False
  end.

(** A budget that passes the test of line 59 is a positive integer. *)
Lemma guard_integer :
  Number_isInteger (maxRetries o) && gt (maxRetries o) (of_Z 0) = true ->
  exists N, (0 < N)%nat /\ num_eq (maxRetries o) (of_nat N).
Proof.
  intros H. apply andb_true_iff in H as [Hint Hpos].
  destruct (maxRetries o) as [|q]; [discriminate|].
  cbn [Number_isInteger gt of_Z] in Hint, Hpos. apply Pos.eqb_eq in Hint.
  assert (Hq : (q == inject_Z (Qnum (Qred q)))%Q).
  { rewrite <- (Qred_correct q) at 1. unfold inject_Z.
    destruct (Qred q) as [z d]. simpl in *. subst d. reflexivity. }
  assert (Hz : 0 < Qnum (Qred q)).
  { apply negb_true_iff in Hpos.
    destruct (Z.ltb_spec 0 (Qnum (Qred q))) as [Hlt|Hge]; [exact Hlt|].
    exfalso. assert (Hle : Qle_bool q (inject_Z 0) = true).
    { apply Qle_bool_iff. rewrite Hq. rewrite <- Zle_Qle. exact Hge. }
    rewrite Hle in Hpos. discriminate. }
  exists (Z.to_nat (Qnum (Qred q))). split; [lia|].
  unfold of_nat, of_Z. simpl. rewrite Z2Nat.id by lia. exact Hq.
Qed.

Section OtherBudget.

(** The configured budget fails the test of line 59: the attempt counter
    stays where it is. *)
Hypothesis guard_fails :
  Number_isInteger (maxRetries o) && gt (maxRetries o) (of_Z 0) = false.

Lemma after_attempt_unchanged delay a w :
  after_attempt o delay a w = (a, w).
Proof. unfold after_attempt. rewrite guard_fails. reflexivity. Qed.

Lemma loop_failed_unguarded :
  forall fuel w e w',
    loop fuel 0 w = (Failed e, w') ->
    lt (of_nat 0) (maxRetries o) = false
    /\ requests w' = (requests w + 2)%nat
    /\ request (requests w' - 1) = Rejected e.
Proof.
  induction fuel as [|fuel IH]; intros w e w' H; [discriminate|].
  rewrite loop_step in H.
  destruct (retried (request (requests w))) eqn:Hr.
  - cbv zeta in H. rewrite after_attempt_unchanged in H. cbn [fst snd] in H.
    destruct (lt (of_nat 0) (maxRetries o)) eqn:Hlt.
    + apply IH in H. destruct H as [H _]. discriminate.
    + split; [reflexivity|].
      rewrite final_request_eq in H. injection H as Hout Hw. subst w'.
      cbn [call_request call_random requests snd] in *.
      split; [lia|]. rewrite Nat.sub_succ, Nat.sub_0_r.
      destruct (request (S (requests w))); [discriminate|].
      injection Hout as ->. reflexivity.
  - injection H as Hout Hw.
    destruct (request (requests w)) as [r|e0]; discriminate.
Qed.

(** With a budget above zero that fails that test, a loop whose attempts
    are all retried ones goes round for as long as it is run: one request
    after another, no sleep, no exit. *)
Lemma loop_spins :
  lt (of_nat 0) (maxRetries o) = true ->
  (forall k, retried (request k) = true) ->
  forall fuel w,
    loop fuel 0 w
    = (OutOfFuel,
       {| requests := requests w + fuel; draws := draws w + fuel;
          trace := trace w ++ List.repeat Request fuel |}).
Proof.
  intros Hlt Hall. induction fuel as [|fuel IH]; intros w.
  - cbn [retry_loop List.repeat]. rewrite !Nat.add_0_r, app_nil_r.
    destruct w; reflexivity.
  - rewrite loop_step, Hall. cbv zeta.
    rewrite after_attempt_unchanged.
    cbn [fst snd]. rewrite Hlt, IH.
    cbn [call_request call_random requests draws trace snd List.repeat].
    rewrite <- app_assoc. cbn [List.app].
    f_equal. f_equal; lia.
Qed.

End OtherBudget.

(** Whatever the configuration, a call that fails has made at least
    [maxRetries + 1] requests, and fails with the rejection of the last. *)
Lemma failed_after_budget :
  forall fuel e w,
    run_to_end fuel = (Failed e, w) ->
    at_least (requests w) (add (maxRetries o) (of_Z 1))
    /\ request (requests w - 1) = Rejected e.
Proof.
  intros fuel e w H. unfold withAutomaticRetries in H.
  destruct (Number_isInteger (maxRetries o) && gt (maxRetries o) (of_Z 0)) eqn:Hg.
  - destruct (guard_integer Hg) as (N & HN & Hm).
    destruct (loop_failed N HN Hm fuel 0%nat initial e w HN H) as [Hreq Hlast].
    split; [|exact Hlast].
    destruct (maxRetries o) as [|q]; [contradiction|].
    cbn [num_eq of_nat of_Z] in Hm. cbn [at_least add of_Z].
    rewrite Qred_correct, Hm, Hreq. cbn [requests initial].
    rewrite <- inject_Z_plus, <- Zle_Qle. lia.
  - destruct (loop_failed_unguarded Hg fuel initial e w H) as (Hlt & Hreq & Hlast).
    split; [|exact Hlast].
    destruct (maxRetries o) as [|q] eqn:Hq.
    + destruct maxRetries_finite as [q Hq']. congruence.
    + cbn [at_least add of_Z]. rewrite Qred_correct, Hreq. cbn [requests initial].
      unfold lt, gt, of_nat, of_Z in Hlt. apply negb_false_iff, Qle_bool_iff in Hlt.
      change (inject_Z (Z.of_nat 0)) with 0%Q in Hlt. change (inject_Z 1) with 1%Q.
      change (inject_Z (Z.of_nat (0 + 2))) with (1 + 1)%Q.
      apply Qplus_le_compat; [|apply Qle_refl].
      apply (Qle_trans _ _ _ Hlt). discriminate.
Qed.

End Loop.

(** The exponent in the argument of [sleep] is [NaN] (no [maxRetries]
    given), [0] (a usable one given) or [-5] (zero given, replaced by the
    default): it never depends on the attempt. *)
Lemma sleep_exponent_cases (o : options) :
  let e := sub (to_number (opt_maxRetries o)) (maxRetries o) in
  e = NaN \/ e = Fin 0 \/ e = Fin (-5 # 1).
Proof.
  unfold maxRetries, or_default, to_number.
  destruct (opt_maxRetries o) as [[|q]|]; cbn [truthy sub of_Z].
  - left. reflexivity.
  - destruct (Qeq_bool q 0) eqn:E; cbn [negb sub of_Z].
    + right. right. apply Qeq_bool_eq in E. f_equal.
      change (-5 # 1) with (Qred (0 - inject_Z 5)). apply Qred_complete.
      rewrite E. reflexivity.
    + right. left. f_equal. change 0%Q with (Qred 0). apply Qred_complete.
      apply Qplus_opp_r.
  - left. reflexivity.
Qed.

(** *** A service that always answers 429 *)

Definition too_many_requests : response := {| ok := false; status := 429 |}.

Definition always_429 (k : nat) : settled := Resolved too_many_requests.

(** The options [request] passes for a GET, with [maxRetries] given. *)
Definition GET_options (n : Z) : options :=
  {| opt_shouldRetry := Some (Replicate.shouldRetry "GET");
     opt_maxRetries := Some (of_Z n);
     opt_interval := None;
     opt_jitter := None |}.

(** GET options with [maxRetries] set to a given number. *)
Definition GET_with (n : num) : options :=
  {| opt_shouldRetry := Some (Replicate.shouldRetry "GET");
     opt_maxRetries := Some n;
     opt_interval := None;
     opt_jitter := None |}.

(** The options [request] passes (lines 256-258 of [lib/replicate.js]):
    [shouldRetry] alone. *)
Definition request_options (method : string) : options :=
  {| opt_shouldRetry := Some (Replicate.shouldRetry method);
     opt_maxRetries := None;
     opt_interval := None;
     opt_jitter := None |}.

(** A service that always rejects with [Retry-After: 120]. *)
Definition always_retry_after_120 (k : nat) : settled :=
  Rejected (ApiError (HString "120")).

(** C3, as the code has it: the claim promises a sleep of
    [interval * 2^attempt + random * jitter] before each retry.  With
    [interval] 500, [jitter] 100, three retries and a 429 at every attempt,
    the provisional delays for [Math.random() = 1/4] are 525, 1025 and 2025,
    but each sleep lasts 500; for [Math.random() = 1/3] the delay of the
    first attempt is 1600/3, positive, and there is no sleep at all.  With
    the options [request] passes, which leave [maxRetries] out, the argument
    of every sleep is [NaN].  The computed delay only gates the sleep, through
    [Number.isInteger(delay)], and the duration slept does not grow with the
    attempt. *)
Theorem sleeps_ignore_the_computed_delay
        (Date_parse : string -> option Z) (now : nat -> Z) :
  (provisional_delay (GET_options 3) 0 (1 # 4) = Fin 525
   /\ provisional_delay (GET_options 3) 1 (1 # 4) = Fin 1025
   /\ provisional_delay (GET_options 3) 2 (1 # 4) = Fin 2025)
  /\ trace (snd (withAutomaticRetries always_429 (fun _ => 1 # 4)
                   Date_parse now (GET_options 3) 3))
     = [Request; Sleep (Fin 500); Request; Sleep (Fin 500); Request;
        Sleep (Fin 500); Request]
  /\ provisional_delay (GET_options 3) 0 (1 # 3) = Fin (1600 # 3)
  /\ trace (snd (withAutomaticRetries always_429 (fun _ => 1 # 3)
                   Date_parse now (GET_options 3) 3))
     = [Request; Request; Request; Request]
  /\ trace (snd (withAutomaticRetries always_429 (fun _ => 1 # 4)
                   Date_parse now (request_options "GET") 5))
     = [Request; Sleep NaN; Request; Sleep NaN; Request; Sleep NaN;
        Request; Sleep NaN; Request; Sleep NaN; Request].
Proof. repeat split; vm_compute; reflexivity. Qed.

(** C4, as the code has it: the claim promises that a [Retry-After] value
    holding a number of seconds sets the delay to that many seconds.  The
    header arrives as text, and for every text the delay is what the date
    parser makes of it, or the provisional delay when it makes nothing of
    it: [Number.isInteger] is false of every string, so the seconds branch
    is not taken.  With [Retry-After: 120] and a parser that rejects ["120"]
    the delay stays at the provisional 525 and the retries follow after
    500 ms each.  Only a numeric value is multiplied by 1000. *)
Theorem retry_after_text_is_never_seconds
        (Date_parse : string -> option Z) (delay : num) (t : Z) :
  (forall s : string,
      delay_after_error Date_parse delay (ApiError (HString s)) t
      = if s =? "" then delay
        else match Date_parse s with
             | Some date => of_Z (date - t)
             | None => delay
             end)
  /\ delay_after_error (fun _ => None) (Fin 525) (ApiError (HString "120")) t
     = Fin 525
  /\ delay_after_error Date_parse delay (ApiError (HNumber (of_Z 120))) t
     = Fin 120000
  /\ (forall now,
         withAutomaticRetries always_retry_after_120 (fun _ => 1 # 4)
                              (fun _ => None) now (GET_options 3) 3
         = (Failed (ApiError (HString "120")),
            {| requests := 4; draws := 3;
               trace := [Request; Sleep (Fin 500); Request; Sleep (Fin 500);
                         Request; Sleep (Fin 500); Request] |})).
Proof.
  split; [|split; [|split]].
  - intros s. unfold delay_after_error. cbn [header_truthy header_isInteger negb Date_getTime].
    destruct (s =? ""); reflexivity.
  - reflexivity.
  - reflexivity.
  - intros now. vm_compute. reflexivity.
Qed.

(** Where the budget is a positive integer the final attempt is made as
    documented: a call that fails has made at least [maxRetries + 1]
    requests and fails with the rejection of the last one; and when
    [maxRetries] is a positive integer [N], the call ends within [N]
    iterations, and if all [N] attempts of the loop are retried ones, the
    outcome of the call is the outcome of request number [N + 1], resolved
    or rejected, without [shouldRetry] being asked about it. *)
Theorem final_attempt_is_unconditional
        (request : nat -> settled) (random : nat -> Q)
        (Date_parse : string -> option Z) (now : nat -> Z) (o : options) :
  (forall fuel e w,
      withAutomaticRetries request random Date_parse now o fuel = (Failed e, w) ->
      at_least (requests w) (add (maxRetries o) (of_Z 1))
      /\ request (requests w - 1)%nat = Rejected e)
  /\ (forall N : nat,
         (0 < N)%nat -> num_eq (maxRetries o) (of_nat N) ->
         forall fuel, (N <= fuel)%nat ->
           fst (withAutomaticRetries request random Date_parse now o fuel) <> OutOfFuel
           /\ ((forall k, (k < N)%nat -> retried o (request k) = true) ->
               fst (withAutomaticRetries request random Date_parse now o fuel)
               = final_outcome (request N)
               /\ requests (snd (withAutomaticRetries request random Date_parse now o fuel))
                  = (N + 1)%nat)).
Proof.
  split.
  - apply failed_after_budget.
  - intros N HN Hm fuel Hfuel. unfold withAutomaticRetries. split.
    + apply (loop_terminates request random Date_parse now o N HN Hm N); lia.
    + intros Hall.
      apply (loop_exhausted request random Date_parse now o N HN Hm N fuel 0%nat initial);
        try lia.
      intros i Hi. apply Hall. exact Hi.
Qed.

(** Three retries against a service that always answers 429: four requests,
    and the fourth response is returned although [shouldRetry] holds of it;
    against a service that always rejects, the call fails after four
    requests, with the fourth rejection. *)
Lemma final_attempt_is_unconditional_witness :
  (fst (withAutomaticRetries always_429 (fun _ => 1 # 4) (fun _ => None)
          (fun _ => 0) (GET_options 3) 3)
   = Fulfilled too_many_requests
   /\ requests (snd (withAutomaticRetries always_429 (fun _ => 1 # 4) (fun _ => None)
                       (fun _ => 0) (GET_options 3) 3))
      = 4%nat
   /\ shouldRetry (GET_options 3) too_many_requests = true)
  /\ (at_least 4 (add (maxRetries (GET_options 3)) (of_Z 1))
      /\ always_retry_after_120 3 = Rejected (ApiError (HString "120"))).
Proof.
  split.
  - destruct (final_attempt_is_unconditional always_429 (fun _ => 1 # 4)
                (fun _ => None) (fun _ => 0) (GET_options 3)) as [_ H].
    destruct (H 3%nat) with (fuel := 3%nat) as [_ Hlast].
    + lia.
    + vm_compute. reflexivity.
    + lia.
    + destruct Hlast as [Hout Hreq].
      * intros k _. reflexivity.
      * split; [exact Hout | split; [exact Hreq | reflexivity]].
  - destruct (final_attempt_is_unconditional always_retry_after_120 (fun _ => 1 # 4)
                (fun _ => None) (fun _ => 0) (GET_options 3)) as [H _].
    apply (H 3%nat (ApiError (HString "120"))
             {| requests := 4; draws := 3;
                trace := [Request; Sleep (Fin 500); Request; Sleep (Fin 500);
                          Request; Sleep (Fin 500); Request] |}).
    vm_compute. reflexivity.
Defined.

(** C5, as the code has it: the claim promises, for every request function
    and configuration, at least [maxRetries + 1] attempts, the last of them
    a final unconditional attempt whose result is returned.  With
    [maxRetries] 2.5 and a service that answers 429 to every request, the
    test of line 59 fails, so the attempt counter is never advanced and
    [attempts < maxRetries] stays true: however long the call is run, it has
    made one request per iteration, has not slept, and has returned
    nothing; the final attempt of line 68 is never reached.  With
    [maxRetries] 2 against the same service the third request is that final
    attempt, and its 429 is returned. *)
Theorem fractional_maxRetries_never_reaches_the_final_attempt
        (random : nat -> Q) (Date_parse : string -> option Z) (now : nat -> Z) :
  Number_isInteger (maxRetries (GET_with (Fin (5 # 2)))) = false
  /\ (forall fuel,
         withAutomaticRetries always_429 random Date_parse now
                              (GET_with (Fin (5 # 2))) fuel
         = (OutOfFuel,
            {| requests := fuel; draws := fuel;
               trace := List.repeat Request fuel |}))
  /\ withAutomaticRetries always_429 (fun _ => 1 # 4) Date_parse now
                          (GET_with (of_Z 2)) 2
     = (Fulfilled too_many_requests,
        {| requests := 3; draws := 2;
           trace := [Request; Sleep (Fin 500); Request; Sleep (Fin 500);
                     Request] |}).
Proof.
  split; [reflexivity|]. split; [|reflexivity].
  intros fuel. unfold withAutomaticRetries.
  rewrite loop_spins; reflexivity || (intros k; reflexivity).
Qed.

End RetryFacts.

(** ** Pagination, waiting and running *)

Module ReplicateFacts.
Import JS Replicate.

(** *** Pagination *)

Section Pages.

Variable endpoint : reply page.
Variable request_json : nat -> string -> reply page.

(** [chain k p rest]: starting with [k] page requests already made, page [p]
    links to the pages [rest], each obtained by requesting the [next]
    reference of the one before, and the last one has no [next]. *)
Inductive chain : nat -> page -> list page -> Prop :=
| chain_last (k : nat) (p : page) :
    present (next p) = false -> chain k p []
| chain_link (k : nat) (p p' : page) (rest : list page) :
    present (next p) = true ->
    request_json k (text (next p)) = Answer p' ->
    chain (S k) p' rest ->
    chain k p (p' :: rest).

(** The requests that following the links of these pages takes. *)
Definition link_requests (pages : list page) : list event :=
  List.flat_map
    (fun p => if present (next p) then [RequestGET (text (next p))] else [])
    pages.

Lemma consume_suspended (k : nat) (p : page) (rest : list page) :
  chain k p rest ->
  forall fuel w,
    fetches w = k ->
    (List.length rest < fuel)%nat ->
    consume endpoint request_json fuel (Suspended p) w
    = (List.map results rest, Some Return,
       {| gets := gets w; reads := reads w;
          fetches := (fetches w + List.length rest)%nat;
          trace := trace w ++ link_requests (p :: rest) |}).
Proof.
  induction 1 as [k p Hlast | k p p' rest Hnext Hreq Hchain IH];
    intros fuel w Hk Hfuel.
  - destruct fuel as [|fuel]; [simpl in Hfuel; lia|].
    cbn [consume generator_next]. rewrite Hlast.
    cbn [List.map List.length link_requests List.flat_map]. rewrite Hlast.
    rewrite Nat.add_0_r, app_nil_r. destruct w; reflexivity.
  - destruct fuel as [|fuel]; [simpl in Hfuel; lia|].
    cbn [consume generator_next]. rewrite Hnext.
    unfold start. cbn [call_source]. rewrite Hk, Hreq.
    rewrite IH; [|reflexivity|simpl in Hfuel; lia].
    cbn [List.map List.length gets reads fetches trace].
    f_equal. f_equal; [lia|].
    cbn [link_requests List.flat_map] in *. rewrite Hnext.
    rewrite <- app_assoc. reflexivity.
Qed.


Lemma chain_link_requests (k : nat) (p : page) (rest : list page) :
  chain k p rest ->
  List.length (link_requests (p :: rest)) = List.length rest.
Proof.
  induction 1 as [k p Hlast | k p p' rest Hnext Hreq Hchain IH].
  - cbn [link_requests List.flat_map]. rewrite Hlast. reflexivity.
  - cbn [link_requests List.flat_map] in *. rewrite Hnext.
    cbn [List.app List.length]. rewrite IH. reflexivity.
Qed.

End Pages.

(** C6: when the endpoint answers with a page that starts a chain ending in
    a page without [next], consuming [paginate] yields the [results] of the
    pages of the chain in order and then completes, having called the
    endpoint once and requested each [next] reference once, in order, and
    nothing after the last page: one request per page after the first.  A
    completed generator does nothing when asked again. *)
Theorem paginate_yields_the_chain
        (endpoint : reply page) (request_json : nat -> string -> reply page)
        (first : page) (rest : list page) :
  endpoint = Answer first ->
  chain request_json 0 first rest ->
  forall fuel, (List.length rest + 1 < fuel)%nat ->
    consume endpoint request_json fuel paginate initial
    = (List.map results (first :: rest), Some Return,
       {| gets := 0; reads := 0; fetches := List.length rest;
          trace := CallEndpoint :: link_requests (first :: rest) |})
    /\ List.length (link_requests (first :: rest)) = List.length rest
    /\ (forall w, generator_next endpoint request_json Completed w
                  = (Return, Completed, w)).
Proof.
  intros Hfirst Hchain fuel Hfuel. subst endpoint. split; [|split].
  - destruct fuel as [|fuel]; [lia|].
    unfold paginate. cbn [consume generator_next]. unfold start.
    cbn [call_source].
    rewrite (consume_suspended (Answer first) request_json 0 first rest Hchain);
      [reflexivity | reflexivity | cbn [List.length] in *; lia].
  - apply (chain_link_requests request_json 0 first rest Hchain).
  - reflexivity.
Qed.

(** Three chained pages. *)
Definition page_ab : page := {| results := ["a"; "b"]; next := Some "next1" |}.
Definition page_c : page := {| results := ["c"]; next := Some "next2" |}.
Definition page_de : page := {| results := ["d"; "e"]; next := None |}.

Definition three_pages (k : nat) (url : string) : reply page :=
  if url =? "next1" then Answer page_c
  else if url =? "next2" then Answer page_de
  else Failure (Error "Not found").

Lemma paginate_yields_the_chain_witness :
  consume (Answer page_ab) three_pages 4 paginate initial
  = ([["a"; "b"]; ["c"]; ["d"; "e"]], Some Return,
     {| gets := 0; reads := 0; fetches := 2;
        trace := [CallEndpoint; RequestGET "next1"; RequestGET "next2"] |}).
Proof.
  refine (proj1 (paginate_yields_the_chain (Answer page_ab) three_pages
                   page_ab [page_c; page_de] eq_refl _ 4%nat _)).
  - apply chain_link; [reflexivity | reflexivity |].
    apply chain_link; [reflexivity | reflexivity |].
    apply chain_last. reflexivity.
  - simpl. lia.
Defined.

(** *** Waiting *)

Section Waiting.

Variable predictions_get : nat -> reply prediction.

(** A record with an [id] and a terminal status comes straight back. *)
Lemma wait_on_terminal
      (prediction : prediction) (options : option wait_options)
      (stop : option (Replicate.prediction -> M bool))
      (fuel : nat) (w : world) :
  present (id prediction) = true ->
  terminal (status prediction) = true ->
  wait predictions_get prediction options stop fuel w = (Resolves prediction, w).
Proof. intros Hid Ht. unfold wait. rewrite Hid, Ht. reflexivity. Qed.

(** C7: a record with a non-empty [id] whose status is already
    [succeeded], [failed] or [canceled] is returned as it is, in a world
    left as it was: nothing is fetched, nothing is slept, the [stop]
    callback is not called. *)
Theorem wait_returns_terminal_record
        (prediction : prediction) (options : option wait_options)
        (stop : option (Replicate.prediction -> M bool))
        (fuel : nat) (w : world) (i : string) :
  id prediction = Some i -> i <> "" ->
  status prediction = "succeeded" \/ status prediction = "failed"
  \/ status prediction = "canceled" ->
  wait predictions_get prediction options stop fuel w = (Resolves prediction, w).
Proof.
  intros Hid Hi Hstatus. apply wait_on_terminal.
  - unfold present. rewrite Hid. apply String.eqb_neq in Hi. rewrite Hi. reflexivity.
  - unfold terminal. destruct Hstatus as [-> | [-> | ->]]; reflexivity.
Qed.

End Waiting.

Definition succeeded_record : prediction :=
  {| id := Some "ufawqhfynnddngldkgtslldrkq"; status := "succeeded";
     output := "hello"; error := "" |}.

Lemma wait_returns_terminal_record_witness :
  wait (fun _ => Failure (Error "unreachable")) succeeded_record None None 0 initial
  = (Resolves succeeded_record, initial).
Proof.
  apply (wait_returns_terminal_record (fun _ => Failure (Error "unreachable"))
           succeeded_record None None 0 initial "ufawqhfynnddngldkgtslldrkq").
  - reflexivity.
  - discriminate.
  - left. reflexivity.
Defined.

Section Polling.

Variable predictions_get : nat -> reply prediction.
Variable prediction : prediction.
Variable options : option wait_options.
Variable stop : option (Replicate.prediction -> M bool).

Lemma call_get_eq (i : option string) (w : world) :
  call_get predictions_get i w
  = (match predictions_get (gets w) with
     | Answer p => Resolves p
     | Failure e => Rejects e
     end,
     {| gets := S (gets w); reads := reads w; fetches := fetches w;
        trace := trace w ++ [Get i] |}).
Proof.
  unfold call_get, bind, log, settle. cbn [gets reads fetches trace].
  destruct (predictions_get (gets w)); reflexivity.
Qed.

(** One iteration of the polling loop on a record that is not terminal. *)
Lemma poll_step (fuel : nat) (u : Replicate.prediction) (w : world) :
  terminal (status u) = false ->
  poll predictions_get prediction options stop (S fuel) u w
  = match (match stop with Some f => f u | None => ret false end) w with
    | (Resolves true, w1) => (Resolves u, w1)
    | (Resolves false, w1) =>
        match call_get predictions_get (id prediction)
                (snd (sleep (interval options) w1)) with
        | (Resolves u', w2) =>
            poll predictions_get prediction options stop fuel u' w2
        | (Rejects e, w2) => (Rejects e, w2)
        | (Pending, w2) => (Pending, w2)
        end
    | (Rejects e, w1) => (Rejects e, w1)
    | (Pending, w1) => (Pending, w1)
    end.
Proof.
  intros Hu. cbn [poll]. rewrite Hu. unfold bind at 1.
  destruct ((match stop with Some f => f u | None => ret false end) w)
    as [[[|]|e|] w1]; reflexivity.
Qed.

(** The record the loop ends on is the one it started with or one that was
    fetched. *)
Lemma poll_resolves :
  forall fuel u w p w',
    poll predictions_get prediction options stop fuel u w = (Resolves p, w') ->
    p = u \/ exists k, predictions_get k = Answer p.
Proof.
  induction fuel as [|fuel IH]; intros u w p w' H.
  - cbn [poll] in H. destruct (terminal (status u)); [|discriminate].
    injection H as -> _. left. reflexivity.
  - destruct (terminal (status u)) eqn:Hu.
    + cbn [poll] in H. rewrite Hu in H. injection H as -> _. left. reflexivity.
    + rewrite (poll_step fuel u w Hu) in H.
      destruct ((match stop with Some f => f u | None => ret false end) w)
        as [[[|]|e|] w1]; try discriminate.
      * injection H as -> _. left. reflexivity.
      * rewrite call_get_eq in H.
        destruct (predictions_get _) as [u'|e] eqn:Hget; [|discriminate].
        apply IH in H. destruct H as [-> | H]; [|right; exact H].
        right. eexists. exact Hget.
Qed.

(** The loop rejects only with what a fetch or the [stop] callback rejected
    with. *)
Lemma poll_rejects :
  forall fuel u w e w',
    poll predictions_get prediction options stop fuel u w = (Rejects e, w') ->
    (exists k, predictions_get k = Failure e)
    \/ (exists f p w1 w2, stop = Some f /\ f p w1 = (Rejects e, w2)).
Proof.
  induction fuel as [|fuel IH]; intros u w e w' H.
  - cbn [poll] in H. destruct (terminal (status u)); discriminate.
  - destruct (terminal (status u)) eqn:Hu.
    + cbn [poll] in H. rewrite Hu in H. discriminate.
    + rewrite (poll_step fuel u w Hu) in H.
      destruct stop as [f|].
      * destruct (f u w) as [[[|]|e0|] w1] eqn:Hf; try discriminate.
        -- rewrite call_get_eq in H.
           destruct (predictions_get _) as [u'|e1] eqn:Hget.
           ++ apply IH in H. exact H.
           ++ injection H as -> _. left. eexists. exact Hget.
        -- injection H as -> _. right. exists f, u, w, w1. auto.
      * cbn [ret] in H. rewrite call_get_eq in H.
        destruct (predictions_get _) as [u'|e1] eqn:Hget.
        -- apply IH in H. exact H.
        -- injection H as -> _. left. eexists. exact Hget.
Qed.

(** C9: a record passed in with status [failed] and a non-empty [id] is
    returned, not raised; a rejection of [wait] is the precondition error, a
    rejection of a fetch, a rejection of the [stop] callback, or ['Prediction
    failed'] for a record that a fetch answered with status [failed]; and
    when the first fetch answers such a record, that error is raised. *)
Theorem failed_is_raised_for_fetched_records_only :
  (forall i, id prediction = Some i -> i <> "" ->
             status prediction = "failed" ->
             forall fuel w,
               wait predictions_get prediction options stop fuel w
               = (Resolves prediction, w))
  /\ (forall fuel w e w',
         wait predictions_get prediction options stop fuel w = (Rejects e, w') ->
         (e = Error "Invalid prediction" /\ present (id prediction) = false)
         \/ (exists k, predictions_get k = Failure e)
         \/ (exists f p w1 w2, stop = Some f /\ f p w1 = (Rejects e, w2))
         \/ (exists k p, predictions_get k = Answer p
                         /\ status p = "failed"
                         /\ e = Error ("Prediction failed: " ++ error p)))
  /\ (forall fuel w p,
         present (id prediction) = true ->
         terminal (status prediction) = false ->
         predictions_get (gets w) = Answer p ->
         status p = "failed" ->
         fst (wait predictions_get prediction options stop fuel w)
         = Rejects (Error ("Prediction failed: " ++ error p))).
Proof.
  split; [|split].
  - intros i Hid Hi Hstatus fuel w.
    apply wait_on_terminal.
    + unfold present. rewrite Hid. apply String.eqb_neq in Hi. rewrite Hi. reflexivity.
    + unfold terminal. rewrite Hstatus. reflexivity.
  - intros fuel w e w' H. unfold wait in H.
    destruct (present (id prediction)) eqn:Hid; cbn [negb] in H.
    + destruct (terminal (status prediction)) eqn:Ht; [discriminate|].
      unfold bind at 1 in H. rewrite call_get_eq in H.
      destruct (predictions_get (gets w)) as [u|e0] eqn:Hget.
      * unfold bind at 1 in H.
        destruct (poll _ _ _ _ _ _ _) as [[p|e1|] w1] eqn:Hpoll.
        -- destruct (status p =? "failed") eqn:Hfailed; [|discriminate].
           injection H as <- _. apply String.eqb_eq in Hfailed.
           right. right. right.
           destruct (poll_resolves _ _ _ _ _ Hpoll) as [-> | [k Hk]].
           ++ exists (gets w), u. auto.
           ++ exists k, p. auto.
        -- injection H as -> _.
           destruct (poll_rejects _ _ _ _ _ Hpoll) as [Hk | Hf]; auto.
        -- discriminate.
      * injection H as -> _. right. left. eexists. exact Hget.
    + injection H as <- _. left. auto.
  - intros fuel w p Hid Ht Hget Hfailed. unfold wait. rewrite Hid, Ht. cbn [negb].
    unfold bind at 1. rewrite call_get_eq, Hget. unfold bind at 1.
    assert (Hp : terminal (status p) = true) by (unfold terminal; rewrite Hfailed; reflexivity).
    destruct fuel; cbn [poll]; rewrite Hp; unfold ret; cbn [fst];
      rewrite Hfailed; reflexivity.
Qed.

End Polling.

Definition failed_record : prediction :=
  {| id := Some "ufawqhfynnddngldkgtslldrkq"; status := "failed";
     output := ""; error := "out of memory" |}.

Definition starting_record : prediction :=
  {| id := Some "ufawqhfynnddngldkgtslldrkq"; status := "starting";
     output := ""; error := "" |}.

(** A failed record handed in comes back; the same record fetched for one
    that was starting raises the error, and that rejection is among the
    four kinds. *)
Lemma failed_is_raised_for_fetched_records_only_witness :
  wait (fun _ => Answer failed_record) failed_record None None 1 initial
  = (Resolves failed_record, initial)
  /\ fst (wait (fun _ => Answer failed_record) starting_record None None 1 initial)
     = Rejects (Error "Prediction failed: out of memory")
  /\ ((Error "Prediction failed: out of memory" = Error "Invalid prediction"
       /\ present (id starting_record) = false)
      \/ (exists k : nat,
             (fun _ : nat => Answer failed_record) k
             = Failure (Error "Prediction failed: out of memory"))
      \/ (exists f p w1 w2,
             @None (prediction -> M bool) = Some f
             /\ f p w1 = (Rejects (Error "Prediction failed: out of memory"), w2))
      \/ (exists (k : nat) p,
             (fun _ : nat => Answer failed_record) k = Answer p
             /\ status p = "failed"
             /\ Error "Prediction failed: out of memory"
                = Error ("Prediction failed: " ++ error p))).
Proof.
  split; [|split].
  - apply (proj1 (failed_is_raised_for_fetched_records_only
                    (fun _ => Answer failed_record) failed_record None None)
             "ufawqhfynnddngldkgtslldrkq").
    + reflexivity.
    + discriminate.
    + reflexivity.
  - apply (proj2 (proj2 (failed_is_raised_for_fetched_records_only
                    (fun _ => Answer failed_record) starting_record None None))
             1%nat initial failed_record); reflexivity.
  - apply (proj1 (proj2 (failed_is_raised_for_fetched_records_only
                    (fun _ => Answer failed_record) starting_record None None))
             1%nat initial (Error "Prediction failed: out of memory")
             {| gets := 1; reads := 0; fetches := 0;
                trace := [Get (Some "ufawqhfynnddngldkgtslldrkq")] |}).
    reflexivity.
Defined.

(** *** Running with a cancellation signal *)

Lemma count_app (f : event -> bool) (a b : list event) :
  count f (a ++ b) = (count f a + count f b)%nat.
Proof. unfold count. rewrite List.filter_app, List.length_app. reflexivity. Qed.

Lemma count_le (f g : event -> bool) (t : list event) :
  (forall e, f e = true -> g e = true) -> (count f t <= count g t)%nat.
Proof.
  intros Hfg. unfold count. induction t as [|e t IH]; [apply Nat.le_refl|].
  cbn [List.filter]. destruct (f e) eqn:Hf.
  - rewrite (Hfg e Hf). cbn [List.length]. lia.
  - destruct (g e); cbn [List.length]; lia.
Qed.

(** What a [progress] callback, if any, adds to the trace. *)
Definition progress_events (progress : bool) (p : prediction) : list event :=
  if progress then [Progress p] else [].

Lemma count_progress_events (f : event -> bool) (progress : bool) (p : prediction) :
  f (Progress p) = false -> count f (progress_events progress p) = 0%nat.
Proof.
  intros Hf. destruct progress; [|reflexivity].
  unfold progress_events, count. cbn [List.filter]. rewrite Hf. reflexivity.
Qed.

Lemma bind_resolves {A B} (m : M A) (k : A -> M B) (w w' : world) (a : A) :
  m w = (Resolves a, w') -> bind m k w = k a w'.
Proof. intros H. unfold bind. rewrite H. reflexivity. Qed.

Lemma bind_rejects {A B} (m : M A) (k : A -> M B) (w w' : world) (e : JS.error) :
  m w = (Rejects e, w') -> bind m k w = (Rejects e, w').
Proof. intros H. unfold bind. rewrite H. reflexivity. Qed.

Lemma call_progress_eq (progress : bool) (p : prediction) (w : world) :
  call_progress progress p w
  = (Resolves tt,
     {| gets := gets w; reads := reads w; fetches := fetches w;
        trace := trace w ++ progress_events progress p |}).
Proof.
  unfold call_progress, progress_events, log, ret.
  destruct progress; [reflexivity|]. rewrite app_nil_r. destruct w; reflexivity.
Qed.

Section Running.

Variable predictions_get : nat -> reply prediction.
Variable predictions_create : reply prediction.
Variable predictions_cancel : reply unit.
Variable options : run_options.
Variable progress : bool.

(** The signal, and the tick [n] at which it is first seen aborted. *)
Variable aborted : nat -> bool.
Variable n : nat.
Hypothesis signal_given : signal options = Some aborted.
Hypothesis not_aborted_before : forall i, (i < n)%nat -> aborted i = false.
Hypothesis aborted_at_n : aborted n = true.

(** The records fetched up to that tick, none of them terminal. *)
Variable fetched : nat -> prediction.
Hypothesis fetched_answers :
  forall i, (i <= n)%nat -> predictions_get i = Answer (fetched i).
Hypothesis fetched_running :
  forall i, (i <= n)%nat -> terminal (status (fetched i)) = false.

(** How the promise of the cancellation request settles a computation that
    would otherwise deliver [a]. *)
Definition after_cancel {A} (a : A) : promise A :=
  match predictions_cancel with
  | Answer _ => Resolves a
  | Failure e => Rejects e
  end.

Lemma run_stop_eq (u : prediction) (w : world) :
  run_stop predictions_cancel options progress u w
  = if aborted (reads w)
    then (after_cancel true,
          {| gets := gets w; reads := S (reads w); fetches := fetches w;
             trace := trace w ++ progress_events progress u ++ [Cancel (id u)] |})
    else (Resolves false,
          {| gets := gets w; reads := S (reads w); fetches := fetches w;
             trace := trace w ++ progress_events progress u |}).
Proof.
  unfold run_stop, call_progress, call_cancel, read_aborted, after_cancel.
  rewrite signal_given.
  destruct progress; unfold bind, log, ret, settle, progress_events;
    cbn [gets reads fetches trace];
    destruct (aborted (reads w)); try destruct predictions_cancel;
    cbn [gets reads fetches trace List.app];
    rewrite <- ?app_assoc, ?app_nil_r; reflexivity.
Qed.

(** From tick [reads w], with [k] ticks to go before the signal shows: the
    loop fetches [k] more times, then cancels once and stops. *)
Lemma poll_until_aborted (prediction : Replicate.prediction)
      (wopts : option wait_options) :
  forall k fuel w,
    (reads w + k = n)%nat -> gets w = S (reads w) -> (k < fuel)%nat ->
    exists mid,
      poll predictions_get prediction wopts
           (Some (run_stop predictions_cancel options progress))
           fuel (fetched (reads w)) w
      = (after_cancel (fetched n),
         {| gets := (gets w + k)%nat; reads := S n; fetches := fetches w;
            trace := trace w ++ mid ++ [Cancel (id (fetched n))] |})
      /\ count is_cancel mid = 0%nat
      /\ count is_get mid = k.
Proof.
  induction k as [|k IH]; intros fuel w Hn Hgets Hfuel.
  - rewrite Nat.add_0_r in Hn.
    destruct fuel as [|fuel]; [lia|].
    rewrite poll_step by (apply fetched_running; lia).
    rewrite run_stop_eq, Hn, aborted_at_n.
    exists (progress_events progress (fetched n)). split; [|split].
    + unfold after_cancel. rewrite Nat.add_0_r.
      destruct predictions_cancel; reflexivity.
    + apply count_progress_events. reflexivity.
    + apply count_progress_events. reflexivity.
  - destruct fuel as [|fuel]; [lia|].
    rewrite poll_step by (apply fetched_running; lia).
    rewrite run_stop_eq, not_aborted_before by lia.
    rewrite call_get_eq. unfold sleep, log. cbn [snd gets reads fetches trace].
    rewrite Hgets, fetched_answers by lia.
    match goal with
    | |- context [poll _ _ _ _ fuel _ ?w1] =>
        destruct (IH fuel w1) as (mid & Hpoll & Hc & Hg)
    end; cbn [gets reads]; try lia.
    cbn [gets reads fetches trace] in Hpoll.
    exists (progress_events progress (fetched (reads w))
            ++ [SleepFor (interval wopts); Get (id prediction)] ++ mid)%list.
    split; [|split].
    + rewrite Hpoll. f_equal. f_equal; [lia|].
      rewrite <- !app_assoc. reflexivity.
    + rewrite !count_app, Hc, count_progress_events by reflexivity. reflexivity.
    + rewrite !count_app, Hg, count_progress_events by reflexivity. reflexivity.
Qed.


Lemma running_not_failed (s : string) :
  terminal s = false -> (s =? "failed") = false.
Proof.
  unfold terminal. intros H.
  apply orb_false_iff in H as [H _]. apply orb_false_iff in H as [_ H]. exact H.
Qed.

(** The prediction that [create] answers with. *)
Variable identifier : identifier.
Variable created : prediction.
Hypothesis identifier_resolves :
  present (version identifier)
  || (present (owner identifier) && present (name identifier)) = true.
Hypothesis created_answer : predictions_create = Answer created.
Hypothesis created_id : present (id created) = true.
Hypothesis created_running : terminal (status created) = false.

Lemma wait_until_aborted (wopts : option wait_options) (fuel : nat) (w : world) :
  gets w = 0%nat -> reads w = 0%nat -> (n < fuel)%nat ->
  exists mid,
    wait predictions_get created wopts
         (Some (run_stop predictions_cancel options progress)) fuel w
    = (after_cancel (fetched n),
       {| gets := S n; reads := S n; fetches := fetches w;
          trace := trace w ++ [Get (id created)] ++ mid
                   ++ [Cancel (id (fetched n))] |})
    /\ count is_cancel mid = 0%nat
    /\ count is_get mid = n.
Proof.
  intros Hgets Hreads Hfuel. unfold wait.
  rewrite created_id, created_running. cbn [negb].
  unfold bind at 1. rewrite call_get_eq, Hgets, Hreads, fetched_answers by lia.
  unfold bind at 1.
  match goal with
  | |- context [poll _ _ _ _ fuel _ ?w1] =>
      destruct (poll_until_aborted created wopts n fuel w1)
        as (mid & Hpoll & Hc & Hg)
  end; cbn [gets reads]; try lia.
  cbn [gets reads fetches trace] in Hpoll.
  exists mid. split; [|auto].
  rewrite Hpoll. unfold after_cancel.
  destruct predictions_cancel.
  - rewrite running_not_failed by (apply fetched_running; lia).
    unfold ret. rewrite <- !app_assoc. reflexivity.
  - rewrite <- !app_assoc. reflexivity.
Qed.

(** The request that creates the prediction. *)
Definition create_event : event :=
  if present (version identifier)
  then Create "version" (text (version identifier))
  else Create "model" (text (owner identifier) ++ "/" ++ text (name identifier)).

Lemma create_eq :
  (if present (version identifier)
   then call_create predictions_create "version" (text (version identifier))
   else if present (owner identifier) && present (name identifier)
        then call_create predictions_create "model"
               (text (owner identifier) ++ "/" ++ text (name identifier))
        else throw (Error "Invalid model version identifier")) initial
  = (Resolves created,
     {| gets := 0; reads := 0; fetches := 0; trace := [create_event] |}).
Proof.
  unfold create_event, call_create, bind, log, settle.
  rewrite created_answer.
  destruct (present (version identifier)); cbn [orb] in identifier_resolves;
    [|rewrite identifier_resolves]; reflexivity.
Qed.

(** The shape of the trace of [run] when the signal is first seen aborted at
    tick [n]. *)
Lemma run_trace_until_aborted (fuel : nat) :
  (n < fuel)%nat ->
  exists before after,
    trace (snd (run predictions_get predictions_create predictions_cancel
                    fuel identifier options progress initial))
    = (before ++ Cancel (id (fetched n)) :: after)%list
    /\ count is_cancel before = 0%nat
    /\ count is_get before = S n
    /\ count is_network after = 0%nat
    /\ fst (run predictions_get predictions_create predictions_cancel
                fuel identifier options progress initial)
       = after_cancel (output (fetched n)).
Proof.
  intros Hfuel. unfold run.
  rewrite (bind_resolves _ _ _ _ _ create_eq).
  rewrite (bind_resolves _ _ _ _ _ (call_progress_eq progress created _)).
  match goal with
  | |- context [wait _ _ ?wopts _ _] =>
      destruct (wait_until_aborted wopts fuel
                  {| gets := 0; reads := 0; fetches := 0;
                     trace := [create_event] ++ progress_events progress created |}
                  eq_refl eq_refl Hfuel) as (mid & Hwait & Hc & Hg)
  end.
  cbn [gets reads fetches trace initial] in Hwait |- *.
  assert (Hcreate : forall f, count f [create_event]
                              = if f create_event then 1%nat else 0%nat).
  { intros f. unfold count. cbn [List.filter]. destruct (f create_event); reflexivity. }
  assert (Hcreate_get : is_get create_event = false)
    by (unfold create_event; destruct (present (version identifier)); reflexivity).
  assert (Hcreate_cancel : is_cancel create_event = false)
    by (unfold create_event; destruct (present (version identifier)); reflexivity).
  exists (([create_event] ++ progress_events progress created)
          ++ [Get (id created)] ++ mid)%list.
  unfold after_cancel in *. destruct predictions_cancel as [[]|e].
  - rewrite (bind_resolves _ _ _ _ _ Hwait).
    rewrite (bind_resolves _ _ _ _ _ (call_progress_eq progress (fetched n) _)).
    rewrite running_not_failed by (apply fetched_running; lia).
    exists (progress_events progress (fetched n)).
    unfold ret. cbn [fst snd trace]. repeat split.
    + rewrite <- !app_assoc. reflexivity.
    + rewrite !count_app, Hc, Hcreate, Hcreate_cancel,
        count_progress_events by reflexivity. reflexivity.
    + rewrite !count_app, Hg, Hcreate, Hcreate_get,
        count_progress_events by reflexivity. reflexivity.
    + apply count_progress_events. reflexivity.
  - rewrite (bind_rejects _ _ _ _ _ Hwait).
    exists []. cbn [fst snd trace]. repeat split.
    + rewrite <- !app_assoc. reflexivity.
    + rewrite !count_app, Hc, Hcreate, Hcreate_cancel,
        count_progress_events by reflexivity. reflexivity.
    + rewrite !count_app, Hg, Hcreate, Hcreate_get,
        count_progress_events by reflexivity. reflexivity.
Qed.

(** C8: when the signal is first seen aborted at poll tick [n], the trace of
    [run] holds exactly one cancellation request; before it lie the [n + 1]
    status fetches that led to that tick, after it no call to the service at
    all, so no further status fetch; and [run] settles with the output of the
    record of that tick, or with the rejection of the cancellation
    request. *)
Theorem cancellation_stops_polling (fuel : nat) :
  (n < fuel)%nat ->
  exists before after,
    trace (snd (run predictions_get predictions_create predictions_cancel
                    fuel identifier options progress initial))
    = (before ++ Cancel (id (fetched n)) :: after)%list
    /\ count is_cancel
             (trace (snd (run predictions_get predictions_create predictions_cancel
                              fuel identifier options progress initial)))
       = 1%nat
    /\ count is_get before = S n
    /\ count is_get after = 0%nat
    /\ count is_network after = 0%nat
    /\ fst (run predictions_get predictions_create predictions_cancel
                fuel identifier options progress initial)
       = after_cancel (output (fetched n)).
Proof.
  intros Hfuel.
  destruct (run_trace_until_aborted fuel Hfuel)
    as (before & after & Htrace & Hbefore & Hgets & Hafter & Hout).
  exists before, after.
  assert (Hcancel : count is_cancel after = 0%nat).
  { pose proof (count_le is_cancel is_network after) as Hle.
    rewrite Hafter in Hle. apply Nat.le_0_r, Hle.
    intros [] He; try discriminate; reflexivity. }
  assert (Hget : count is_get after = 0%nat).
  { pose proof (count_le is_get is_network after) as Hle.
    rewrite Hafter in Hle. apply Nat.le_0_r, Hle.
    intros [] He; try discriminate; reflexivity. }
  repeat split; try assumption.
  rewrite Htrace, count_app, Hbefore.
  change (Cancel (id (fetched n)) :: after)
    with ([Cancel (id (fetched n))] ++ after)%list.
  rewrite count_app, Hcancel. reflexivity.
Qed.

End Running.

Definition processing_record : prediction :=
  {| id := Some "ufawqhfynnddngldkgtslldrkq"; status := "processing";
     output := "partial"; error := "" |}.

Definition owner_and_name : identifier :=
  {| owner := Some "replicate"; name := Some "hello-world"; version := None |}.

(** A signal that fires between the first and the second tick. *)
Definition fires_on_second_tick : run_options :=
  {| run_wait := None; signal := Some (fun k => Nat.leb 1 k) |}.

Lemma cancellation_stops_polling_witness :
  exists before after,
    trace (snd (run (fun _ => Answer processing_record) (Answer starting_record)
                    (Answer tt) 2 owner_and_name fires_on_second_tick true initial))
    = (before ++ Cancel (Some "ufawqhfynnddngldkgtslldrkq") :: after)%list
    /\ count is_cancel
             (trace (snd (run (fun _ => Answer processing_record)
                              (Answer starting_record) (Answer tt) 2
                              owner_and_name fires_on_second_tick true initial)))
       = 1%nat
    /\ count is_get before = 2%nat
    /\ count is_get after = 0%nat
    /\ count is_network after = 0%nat
    /\ fst (run (fun _ => Answer processing_record) (Answer starting_record)
                (Answer tt) 2 owner_and_name fires_on_second_tick true initial)
       = Resolves "partial".
Proof.
  refine (cancellation_stops_polling
            (fun _ => Answer processing_record) (Answer starting_record) (Answer tt)
            fires_on_second_tick true (fun k => Nat.leb 1 k) 1 _ _ _
            (fun _ => processing_record) _ _
            owner_and_name starting_record _ _ _ _ 2 _).
  - reflexivity.
  - intros i Hi. assert (i = 0)%nat as -> by lia. reflexivity.
  - reflexivity.
  - intros i _. reflexivity.
  - intros i _. reflexivity.
  - reflexivity.
  - reflexivity.
  - reflexivity.
  - reflexivity.
  - lia.
Defined.

End ReplicateFacts.

(** ** Further properties of the encoder *)

Module EncoderExtras.
Import JS Encoder EncoderFacts.

(** *** One file *)

Lemma mapper_blob_small (type : string) (bytes : list byte) (t : Z) :
  byteLength bytes <= MAX_DATA_URI_SIZE ->
  mapper (VBlob type bytes) t
  = Returned (VString (data_uri type bytes), byteLength bytes).
Proof.
  intros Hle. unfold mapper, bind, set_totalBytes, get_totalBytes, ret.
  replace (0 + byteLength bytes) with (byteLength bytes) by lia.
  destruct (Z.gtb_spec (byteLength bytes) MAX_DATA_URI_SIZE); [lia | reflexivity].
Qed.

Lemma mapper_blob_large (type : string) (bytes : list byte) (t : Z) :
  MAX_DATA_URI_SIZE < byteLength bytes ->
  mapper (VBlob type bytes) t = Returned (VNull, byteLength bytes).
Proof.
  intros Hlt. unfold mapper, bind, set_totalBytes, get_totalBytes, ret.
  replace (0 + byteLength bytes) with (byteLength bytes) by lia.
  destruct (Z.gtb_spec (byteLength bytes) MAX_DATA_URI_SIZE); [reflexivity | lia].
Qed.

(** X1: a buffer or blob of at most 10,000,000 bytes passed on its own comes
    back as a string made of ["data:"], the MIME type (the blob's own, the
    generic one for a buffer), [";base64,"] and a payload, and decoding the
    payload gives the bytes of the file back. *)
Theorem encoded_file_decodes_back (bytes : list byte) :
  byteLength bytes <= MAX_DATA_URI_SIZE ->
  (exists payload,
      transformFileInputs (VBuffer bytes)
      = Returned (VString ("data:application/octet-stream;base64," ++ payload))
      /\ base64_decode payload = Some bytes)
  /\ (forall type, exists payload,
         transformFileInputs (VBlob type bytes)
         = Returned (VString ("data:" ++ type ++ ";base64," ++ payload))
         /\ base64_decode payload = Some bytes).
Proof.
  intros Hle. split.
  - exists (base64 bytes). split; [|apply base64_decode_encode].
    unfold transformFileInputs. cbn [transform].
    rewrite mapper_buffer_small by exact Hle.
    destruct (Z.gtb_spec (byteLength bytes) MAX_DATA_URI_SIZE); [lia | reflexivity].
  - intros type. exists (base64 bytes). split; [|apply base64_decode_encode].
    unfold transformFileInputs. cbn [transform].
    rewrite mapper_blob_small by exact Hle.
    destruct (Z.gtb_spec (byteLength bytes) MAX_DATA_URI_SIZE); [lia | reflexivity].
Qed.

Lemma encoded_file_decodes_back_witness :
  (exists payload,
      transformFileInputs (VBuffer [x68; x69])
      = Returned (VString ("data:application/octet-stream;base64," ++ payload))
      /\ base64_decode payload = Some [x68; x69])
  /\ (forall type, exists payload,
         transformFileInputs (VBlob type [x68; x69])
         = Returned (VString ("data:" ++ type ++ ";base64," ++ payload))
         /\ base64_decode payload = Some [x68; x69]).
Proof.
  apply (encoded_file_decodes_back [x68; x69]).
  unfold MAX_DATA_URI_SIZE, byteLength. simpl. lia.
Defined.

(** *** Encoding twice *)

Lemma plain_after_rebuild (props : list (string * value)) :
  isPlainObject (VObject literal_view props) = Returned true.
Proof. reflexivity. Qed.

Lemma encoded_idempotent (v : value) : encoded (encoded v) = encoded v.
Proof.
  induction v as [v Hv | elements IH | view properties IH] using value_nested_ind.
  - destruct v; try contradiction; reflexivity.
  - cbn [encoded]. f_equal. rewrite List.map_map.
    induction IH as [|x r Hx _ IHr]; [reflexivity|].
    cbn [List.map]. rewrite Hx, IHr. reflexivity.
  - cbn [encoded].
    destruct (isPlainObject (VObject view properties)) as [[|]|e] eqn:Hplain.
    + cbn [encoded]. rewrite plain_after_rebuild. f_equal.
      rewrite List.map_map. cbn [fst snd]. clear Hplain.
      induction IH as [|[k x] r Hx _ IHr]; [reflexivity|].
      cbn [List.map fst snd] in *. rewrite Hx, IHr. reflexivity.
    + cbn [encoded]. rewrite Hplain. reflexivity.
    + cbn [encoded]. rewrite Hplain. reflexivity.
Qed.

Lemma binary_size_encoded (v : value) : binary_size (encoded v) = 0.
Proof.
  induction v as [v Hv | elements IH | view properties IH] using value_nested_ind.
  - destruct v; try contradiction; reflexivity.
  - cbn [encoded binary_size].
    induction IH as [|x r Hx _ IHr]; [reflexivity|].
    cbn [List.map]. rewrite Hx, IHr. reflexivity.
  - cbn [encoded].
    destruct (isPlainObject (VObject view properties)) as [[|]|e] eqn:Hplain.
    + cbn [binary_size]. rewrite plain_after_rebuild. clear Hplain.
      induction IH as [|[k x] r Hx _ IHr]; [reflexivity|].
      cbn [List.map fst snd] in *. rewrite Hx, IHr. reflexivity.
    + cbn [binary_size]. rewrite Hplain. reflexivity.
    + cbn [binary_size]. rewrite Hplain. reflexivity.
Qed.

Lemma walkable_encoded (v : value) : walkable v = true -> walkable (encoded v) = true.
Proof.
  induction v as [v Hv | elements IH | view properties IH] using value_nested_ind;
    intros Hwalk.
  - destruct v; try contradiction; reflexivity.
  - destruct elements; [reflexivity | discriminate Hwalk].
  - cbn [walkable] in Hwalk. cbn [encoded].
    destruct (isPlainObject (VObject view properties)) as [[|]|e] eqn:Hplain;
      [| |discriminate Hwalk].
    + apply andb_true_iff in Hwalk as [Hkeys Hall].
      cbn [walkable]. rewrite plain_after_rebuild.
      apply andb_true_iff. split.
      * rewrite List.map_map. cbn [fst]. exact Hkeys.
      * clear Hkeys Hplain.
        induction IH as [|[k x] r Hx _ IHr]; [reflexivity|].
        apply andb_true_iff in Hall as [Hwx Hwr].
        cbn [List.map fst snd] in *.
        rewrite (Hx Hwx), (IHr Hwr). reflexivity.
    + cbn [walkable]. rewrite Hplain. reflexivity.
Qed.

(** X2: on a tree that holds, where the traversal goes, no array but the
    empty one, no blob without a type, no object on which [isPlainObject]
    throws and no property named ["__proto__"] or ["toString"], and whose
    binary leaves add up to the ceiling at most, [transformFileInputs] returns the tree with
    every buffer and typed blob replaced by its data URI and every plain
    object rebuilt under the same keys; the result holds no binary leaf any
    more, and passing it in again returns it unchanged. *)
Theorem encoding_again_changes_nothing (v : value) :
  walkable v = true ->
  binary_size v <= MAX_DATA_URI_SIZE ->
  transformFileInputs v = Returned (encoded v)
  /\ binary_size (encoded v) = 0
  /\ transformFileInputs (encoded v) = Returned (encoded v).
Proof.
  intros Hwalk Hsize.
  split; [apply transformFileInputs_without_arrays; assumption|].
  split; [apply binary_size_encoded|].
  rewrite (transformFileInputs_without_arrays (encoded v)).
  - rewrite encoded_idempotent. reflexivity.
  - apply walkable_encoded, Hwalk.
  - rewrite binary_size_encoded. unfold MAX_DATA_URI_SIZE. lia.
Qed.

(** An object literal with a number, a typed blob and a nested literal
    holding a buffer. *)
Definition a_form : value :=
  VObject literal_view
    [("steps", VNumber (of_Z 20));
     ("image", VBlob "image/png" [x68; x69]);
     ("extra", VObject literal_view [("mask", VBuffer [x68])])].

Definition a_form_encoded : value :=
  VObject literal_view
    [("steps", VNumber (of_Z 20));
     ("image", VString "data:image/png;base64,aGk=");
     ("extra", VObject literal_view
                 [("mask", VString "data:application/octet-stream;base64,aA==")])].

Lemma encoding_again_changes_nothing_witness :
  transformFileInputs a_form = Returned a_form_encoded
  /\ binary_size a_form_encoded = 0
  /\ transformFileInputs a_form_encoded = Returned a_form_encoded.
Proof.
  apply (encoding_again_changes_nothing a_form).
  - reflexivity.
  - vm_compute. discriminate.
Defined.

(** *** The size limit *)

(** The byte lengths of the binary leaves of a tree, in the order in which
    the traversal meets them. *)
Fixpoint leaves (v : value) : list Z :=
  match v with
  | VBuffer bytes | VBlob _ bytes => [byteLength bytes]
  | VObject view properties =>
      match isPlainObject (VObject view properties) with
      | Returned true =>
          (fix go (l : list (string * value)) : list Z :=
             match l with
             | [] => []
             | (_, x) :: r => (leaves x ++ go r)%list
             end) properties
      | _ => []
      end
  | _ => []
  end.

(** Trees on which the traversal gets through: no array but the empty one,
    and no object on which [isPlainObject] throws, among the values that
    the traversal reaches. *)
Fixpoint array_free (v : value) : bool :=
  match v with
  | VArray elements => match elements with [] => true | _ :: _ => false end
  | VObject view properties =>
      match isPlainObject (VObject view properties) with
      | Returned true =>
          (fix all (l : list (string * value)) : bool :=
             match l with
             | [] => true
             | (_, x) :: r => array_free x && all r
             end) properties
      | Returned false => true
      | Thrown _ => false
      end
  | _ => true
  end.

Definition leaves_of : list (string * value) -> list Z :=
  fix go (l : list (string * value)) : list Z :=
    match l with
    | [] => []
    | (_, x) :: r => (leaves x ++ go r)%list
    end.

Definition all_array_free : list (string * value) -> bool :=
  fix all (l : list (string * value)) : bool :=
    match l with [] => true | (_, x) :: r => array_free x && all r end.

Lemma last_default (a : list Z) (d d' : Z) :
  a <> [] -> List.last a d = List.last a d'.
Proof.
  induction a as [|x a IH]; intros Ha; [contradiction|].
  destruct a as [|y a]; [reflexivity|].
  cbn [List.last] in *. apply IH. discriminate.
Qed.

Lemma last_app (a b : list Z) (d : Z) :
  List.last (a ++ b) d = List.last b (List.last a d).
Proof.
  destruct b as [|z b]; [rewrite app_nil_r; reflexivity|].
  induction a as [|x a IH]; [reflexivity|].
  transitivity (List.last (a ++ z :: b) d).
  - destruct a; reflexivity.
  - rewrite IH. apply last_default. discriminate.
Qed.

(** The counter after the traversal is the length of the last binary leaf,
    or what it was when there is none. *)
Lemma transform_counter (v : value) :
  array_free v = true ->
  forall t, exists r, transform v mapper t = Returned (r, List.last (leaves v) t).
Proof.
  induction v as [v Hv | elements IH | view properties IH] using value_nested_ind;
    intros Hfree t.
  - destruct v; try contradiction; cbn [transform leaves List.last];
      try (eexists; reflexivity).
    + destruct (Z_le_gt_dec (byteLength bytes) MAX_DATA_URI_SIZE).
      * eexists. apply mapper_buffer_small. assumption.
      * eexists. apply mapper_buffer_large. lia.
    + destruct (Z_le_gt_dec (byteLength bytes) MAX_DATA_URI_SIZE).
      * eexists. apply mapper_blob_small. assumption.
      * eexists. apply mapper_blob_large. lia.
  - destruct elements; [|discriminate Hfree]. eexists. reflexivity.
  - cbn [array_free] in Hfree. cbn [leaves].
    destruct (isPlainObject (VObject view properties)) as [[|]|e] eqn:Hplain;
      [| |discriminate Hfree].
    + fold all_array_free in Hfree. fold leaves_of.
      rewrite (transform_plain_object view properties mapper Hplain).
      assert (Hkeys : forall copy t, exists copy',
                 for_keys (fun v => transform v mapper) properties copy t
                 = Returned (copy', List.last (leaves_of properties) t)).
      { clear Hplain t.
        induction IH as [|[k x] r Hx _ IHr]; intros copy t.
        - exists copy. reflexivity.
        - cbn [all_array_free] in Hfree. fold all_array_free in Hfree.
          apply andb_true_iff in Hfree as [Hfx Hfr]. cbn [snd] in Hx.
          destruct (Hx Hfx t) as (rx & Hrun).
          cbn [for_keys]. fold (for_keys (fun v => transform v mapper)).
          unfold bind at 1. rewrite Hrun.
          destruct (IHr Hfr (set_property copy k rx) (List.last (leaves x) t))
            as (copy' & Hrest).
          exists copy'. rewrite Hrest.
          cbn [leaves_of]. fold leaves_of. rewrite last_app. reflexivity. }
      destruct (Hkeys [] t) as (copy' & Hrun).
      unfold bind. rewrite Hrun. eexists. reflexivity.
    + cbn [transform]. rewrite Hplain. eexists. reflexivity.
Qed.



End EncoderExtras.

(** ** Further properties of the retry controller *)

Module RetryExtras.
Import JS Retry RetryFacts.

Definition is_sleep (e : event) : bool :=
  match e with Sleep _ => true | Request => false end.

Section Calls.

Variable request : nat -> settled.
Variable random : nat -> Q.
Variable Date_parse : string -> option Z.
Variable now : nat -> Z.
Variable o : options.

(** X5: within one call every sleep has the same duration, the value of
    [interval * 2 ** (options.maxRetries - maxRetries)]: it does not depend on
    the attempt or on the delay computed for it, and it is [NaN] when
    [maxRetries] is left out of the options. *)
Theorem sleeps_share_one_duration (fuel : nat) (ms : num) :
  In (Sleep ms)
     (trace (snd (withAutomaticRetries request random Date_parse now o fuel))) ->
  ms = sleep_duration o
  /\ (opt_maxRetries o = None -> ms = NaN).
Proof.
  intros Hin. unfold withAutomaticRetries in Hin.
  apply every_sleep_lasts_sleep_duration in Hin.
  destruct Hin as [[] | ->]. split; [reflexivity|].
  intros Hnone. unfold sleep_duration. rewrite Hnone.
  cbn [to_number sub]. destruct (interval o); reflexivity.
Qed.

(** Whatever happens, one iteration adds one request and one draw. *)
Lemma loop_counts :
  forall fuel a w,
    (requests w <= requests (snd (retry_loop request random Date_parse now o fuel a w)))%nat.
Proof.
  induction fuel as [|fuel IH]; intros a w; [apply Nat.le_refl|].
  rewrite loop_step.
  destruct (retried o (request (requests w))).
  - cbv zeta.
    match goal with
    | |- context [after_attempt o ?d a ?w1] =>
        pose proof (requests_after_attempt o d a w1) as Hreq;
        set (aw := after_attempt o d a w1) in *
    end.
    cbn [call_request call_random requests snd] in Hreq.
    destruct (lt (of_nat (fst aw)) (maxRetries o)).
    + specialize (IH (fst aw) (snd aw)). lia.
    + rewrite final_request_eq. cbn [snd call_request requests]. lia.
  - cbn [snd call_request call_random requests]. lia.
Qed.


Definition sleeps (t : list event) : nat := List.length (List.filter is_sleep t).

Lemma sleeps_app (a b : list event) : sleeps (a ++ b) = (sleeps a + sleeps b)%nat.
Proof. unfold sleeps. rewrite List.filter_app, List.length_app. reflexivity. Qed.

Lemma sleeps_after_attempt delay a w :
  (sleeps (trace (snd (after_attempt o delay a w))) <= sleeps (trace w) + 1)%nat.
Proof.
  destruct (trace_after_attempt o delay a w) as [-> | ->].
  - lia.
  - rewrite sleeps_app. cbn. lia.
Qed.

Section IntegerBudget.

Variable N : nat.
Hypothesis N_positive : (0 < N)%nat.
Hypothesis maxRetries_is_N : num_eq (maxRetries o) (of_nat N).

Lemma loop_bounded :
  forall fuel a w,
    (a < N)%nat ->
    let w' := snd (retry_loop request random Date_parse now o fuel a w) in
    (requests w' <= requests w + (N - a) + 1)%nat
    /\ (sleeps (trace w') <= sleeps (trace w) + (N - a))%nat.
Proof.
  induction fuel as [|fuel IH]; intros a w Ha; cbv zeta.
  - cbn [retry_loop snd]. lia.
  - rewrite loop_step.
    destruct (retried o (request (requests w))).
    + cbv zeta.
      rewrite (attempts_after_attempt o N N_positive maxRetries_is_N).
      rewrite (lt_of_nat _ N _ maxRetries_is_N).
      match goal with
      | |- context [after_attempt o ?d a ?w1] =>
          pose proof (requests_after_attempt o d a w1) as Hreq;
          pose proof (sleeps_after_attempt d a w1) as Hsl;
          set (W := snd (after_attempt o d a w1)) in *
      end.
      cbn [call_request call_random requests trace snd] in Hreq, Hsl.
      rewrite sleeps_app in Hsl. change (sleeps [Request]) with 0%nat in Hsl.
      destruct (Nat.ltb_spec (S a) N) as [Hlt | Hge].
      * destruct (IH (S a) W Hlt) as [H1 H2]. split; lia.
      * rewrite final_request_eq. cbn [snd call_request requests trace].
        rewrite sleeps_app. change (sleeps [Request]) with 0%nat. split; lia.
    + cbn [snd call_request call_random requests trace].
      rewrite sleeps_app. change (sleeps [Request]) with 0%nat. split; lia.
Qed.

End IntegerBudget.

(** X6: when [maxRetries] is a positive integer [N], a call makes at most
    [N + 1] requests and sleeps at most [N] times, whatever the requests
    answer and however long the model is run. *)
Theorem at_most_one_more_than_the_budget (N : nat) (fuel : nat) :
  (0 < N)%nat ->
  num_eq (maxRetries o) (of_nat N) ->
  (requests (snd (withAutomaticRetries request random Date_parse now o fuel))
   <= N + 1)%nat
  /\ (sleeps (trace (snd (withAutomaticRetries request random Date_parse now o fuel)))
      <= N)%nat.
Proof.
  intros HN Hm.
  destruct (loop_bounded N HN Hm fuel 0%nat initial HN) as [H1 H2].
  unfold withAutomaticRetries. cbn [requests trace initial] in H1, H2.
  change (sleeps []) with 0%nat in H2. split; lia.
Qed.

Lemma loop_fulfilled :
  forall fuel a w r w',
    retry_loop request random Date_parse now o fuel a w = (Fulfilled r, w') ->
    (requests w < requests w')%nat
    /\ request (requests w' - 1) = Resolved r.
Proof.
  induction fuel as [|fuel IH]; intros a w r w' H; [discriminate|].
  rewrite loop_step in H.
  destruct (retried o (request (requests w))).
  - cbv zeta in H.
    match type of H with
    | context [after_attempt o ?d a ?w1] =>
        pose proof (requests_after_attempt o d a w1) as Hreq;
        set (aw := after_attempt o d a w1) in *
    end.
    cbn [call_request call_random requests snd] in Hreq.
    destruct (lt (of_nat (fst aw)) (maxRetries o)).
    + apply IH in H. destruct H as [H1 H2]. split; [lia | exact H2].
    + rewrite final_request_eq in H. injection H as Hout Hw. subst w'.
      cbn [call_request requests snd]. rewrite Hreq.
      split; [lia|]. rewrite Nat.sub_succ, Nat.sub_0_r.
      rewrite Hreq in Hout.
      destruct (request (S (requests w))); [|discriminate].
      injection Hout as ->. reflexivity.
  - injection H as Hout Hw. subst w'.
    cbn [call_request call_random requests snd].
    split; [lia|]. rewrite Nat.sub_succ, Nat.sub_0_r.
    destruct (request (requests w)); [|discriminate].
    injection Hout as ->. reflexivity.
Qed.

(** X7: the response a call returns is the response to the last request it
    made: a call that returns has made at least one request, and nothing is
    requested after the response that is handed back. *)
Theorem returned_response_is_the_last_one (fuel : nat) (r : response) (w : world) :
  withAutomaticRetries request random Date_parse now o fuel = (Fulfilled r, w) ->
  (0 < requests w)%nat
  /\ request (requests w - 1) = Resolved r.
Proof.
  intros H. apply loop_fulfilled in H. cbn [requests initial] in H. exact H.
Qed.

Lemma repeat_snoc {A} (x : A) (n : nat) :
  (List.repeat x n ++ [x])%list = x :: List.repeat x n.
Proof. induction n as [|n IH]; [reflexivity|]. cbn. rewrite IH. reflexivity. Qed.

Section OtherBudget.

Hypothesis not_an_integer_budget :
  Number_isInteger (maxRetries o) && gt (maxRetries o) (of_Z 0) = false.

Lemma loop_once :
  lt (of_nat 0) (maxRetries o) = false ->
  forall fuel w,
    retried o (request (requests w)) = true ->
    retry_loop request random Date_parse now o (S fuel) 0 w
    = (final_outcome (request (S (requests w))),
       {| requests := S (S (requests w)); draws := S (draws w);
          trace := trace w ++ [Request; Request] |}).
Proof.
  intros Hlt fuel w Hr.
  rewrite loop_step, Hr. cbv zeta.
  rewrite (after_attempt_unchanged o not_an_integer_budget).
  cbn [fst snd]. rewrite Hlt, final_request_eq.
  cbn [call_request call_random requests draws trace snd].
  rewrite <- app_assoc. reflexivity.
Qed.

End OtherBudget.

(** X8: leaving [maxRetries] out, or passing [0] or [NaN] for it, gives a
    budget of five: against requests that all call for a retry the call makes
    six requests and ends with the outcome of the sixth. *)
Theorem zero_retries_means_five (fuel : nat) :
  opt_maxRetries o = None \/ opt_maxRetries o = Some (of_Z 0)
  \/ opt_maxRetries o = Some NaN ->
  (forall k, (k < 5)%nat -> retried o (request k) = true) ->
  (5 <= fuel)%nat ->
  fst (withAutomaticRetries request random Date_parse now o fuel)
  = final_outcome (request 5)
  /\ requests (snd (withAutomaticRetries request random Date_parse now o fuel))
     = 6%nat.
Proof.
  intros Hopt Hall Hfuel.
  assert (Hm : num_eq (maxRetries o) (of_nat 5)).
  { unfold maxRetries. destruct Hopt as [-> | [-> | ->]]; reflexivity. }
  unfold withAutomaticRetries.
  apply (loop_exhausted request random Date_parse now o 5 ltac:(lia) Hm 5 fuel 0%nat initial);
    try lia.
  intros i Hi. apply Hall. exact Hi.
Qed.

(** X9: with a positive [maxRetries] that is not an integer the attempt
    counter never advances: against requests that all call for a retry the
    call never ends, making one request after another without sleeping. *)
Theorem fractional_budget_never_ends (fuel : nat) :
  Number_isInteger (maxRetries o) = false ->
  gt (maxRetries o) (of_Z 0) = true ->
  (forall k, retried o (request k) = true) ->
  withAutomaticRetries request random Date_parse now o fuel
  = (OutOfFuel,
     {| requests := fuel; draws := fuel; trace := List.repeat Request fuel |}).
Proof.
  intros Hint Hpos Hall. unfold withAutomaticRetries.
  rewrite loop_spins.
  - reflexivity.
  - rewrite Hint. reflexivity.
  - exact Hpos.
  - exact Hall.
Qed.

(** X10: with a [maxRetries] below zero, a first attempt that calls for a
    retry is followed at once by the final request, whose outcome is the
    outcome of the call: two requests, no sleep. *)
Theorem negative_budget_means_two_requests (fuel : nat) :
  gt (maxRetries o) (of_Z 0) = false ->
  retried o (request 0) = true ->
  withAutomaticRetries request random Date_parse now o (S fuel)
  = (final_outcome (request 1),
     {| requests := 2; draws := 1; trace := [Request; Request] |}).
Proof.
  intros Hneg Hr. unfold withAutomaticRetries.
  rewrite loop_once.
  - reflexivity.
  - rewrite Hneg. apply andb_false_r.
  - exact Hneg.
  - exact Hr.
Qed.

End Calls.

(** An error, an outcome and a settled request with the [Retry-After]
    header of the [ApiError] left aside, and a settled request with that
    header replaced. *)
Definition without_header (e : error) : error :=
  match e with
  | ApiError _ => ApiError HNull
  | TypeError _ | Error _ => e
  end.

Definition outcome_without_header (x : outcome) : outcome :=
  match x with
  | Failed e => Failed (without_header e)
  | Fulfilled _ | OutOfFuel => x
  end.

Definition with_header (h : header_value) (s : settled) : settled :=
  match s with
  | Rejected (ApiError _) => Rejected (ApiError h)
  | Rejected (TypeError _) | Rejected (Error _) | Resolved _ => s
  end.

Section TwoServers.

Variable request : nat -> settled.
Variable random : nat -> Q.
Variable o : options.
Variables Date_parse Date_parse' : string -> option Z.
Variables now now' : nat -> Z.

(** The same service, with the header of its [k]-th error replaced. *)
Variable header : nat -> header_value.

Definition request' (k : nat) : settled := with_header (header k) (request k).

Lemma retried_with_header (h : header_value) (s : settled) :
  retried o (with_header h s) = retried o s.
Proof. destruct s as [r|[]]; reflexivity. Qed.

Lemma final_outcome_with_header (h : header_value) (s : settled) :
  outcome_without_header (final_outcome (with_header h s))
  = outcome_without_header (final_outcome s).
Proof. destruct s as [r|[]]; reflexivity. Qed.

Lemma fst_after_attempt delay delay' a w w' :
  fst (after_attempt o delay a w) = fst (after_attempt o delay' a w').
Proof.
  unfold after_attempt.
  destruct (Number_isInteger (maxRetries o) && gt (maxRetries o) (of_Z 0));
    reflexivity.
Qed.

Lemma draws_after_attempt delay a w :
  draws (snd (after_attempt o delay a w)) = draws w.
Proof.
  unfold after_attempt.
  destruct (Number_isInteger (maxRetries o) && gt (maxRetries o) (of_Z 0));
    [|reflexivity].
  cbn [snd]. destruct (Number_isInteger delay && gt delay (of_Z 0)); reflexivity.
Qed.

Lemma loop_same_requests :
  forall fuel a w w',
    requests w = requests w' -> draws w = draws w' ->
    let r := retry_loop request random Date_parse now o fuel a w in
    let r' := retry_loop request' random Date_parse' now' o fuel a w' in
    outcome_without_header (fst r) = outcome_without_header (fst r')
    /\ requests (snd r) = requests (snd r')
    /\ draws (snd r) = draws (snd r').
Proof.
  induction fuel as [|fuel IH]; intros a w w' Hreq Hdraws; cbv zeta.
  - cbn [retry_loop fst snd]. auto.
  - rewrite (loop_step request), (loop_step request'). rewrite <- Hreq.
    assert (Hr : retried o (request' (requests w))
                 = retried o (request (requests w)))
      by apply retried_with_header.
    rewrite Hr.
    destruct (retried o (request (requests w))).
    + cbv zeta.
      match goal with
      | |- context [retry_loop request _ Date_parse now o fuel
                      (fst (after_attempt o ?d a ?w1)) _] =>
          match goal with
          | |- context [retry_loop request' _ Date_parse' now' o fuel
                          (fst (after_attempt o ?d' a ?w1')) _] =>
              pose proof (fst_after_attempt d d' a w1 w1') as Hfst;
              pose proof (requests_after_attempt o d a w1) as H1;
              pose proof (requests_after_attempt o d' a w1') as H1';
              pose proof (draws_after_attempt d a w1) as H2;
              pose proof (draws_after_attempt d' a w1') as H2';
              set (aw := after_attempt o d a w1) in *;
              set (aw' := after_attempt o d' a w1') in *
          end
      end.
      cbn [call_request call_random requests draws snd] in H1, H1', H2, H2'.
      rewrite <- Hfst.
      destruct (lt (of_nat (fst aw)) (maxRetries o)).
      * apply IH; lia.
      * rewrite !final_request_eq. cbn [fst snd call_request requests draws].
        rewrite H1, H1', H2, H2', Hreq, Hdraws.
        unfold request'. rewrite final_outcome_with_header. auto.
    + cbn [fst snd call_request call_random requests draws].
      unfold request'. rewrite final_outcome_with_header.
      rewrite Hdraws. auto.
Qed.

(** X11: the [Retry-After] headers of the errors a service rejects with,
    the date parser and the clock can only change whether the call sleeps:
    against the same service with other headers on its errors, another
    parser and another clock, the call makes the same number of requests and
    ends the same way, with the same response or with the error of the same
    request. *)
Theorem retry_after_changes_sleeps_only (fuel : nat) :
  outcome_without_header
    (fst (withAutomaticRetries request random Date_parse now o fuel))
  = outcome_without_header
      (fst (withAutomaticRetries request' random Date_parse' now' o fuel))
  /\ requests (snd (withAutomaticRetries request random Date_parse now o fuel))
     = requests (snd (withAutomaticRetries request' random Date_parse' now' o fuel)).
Proof.
  destruct (loop_same_requests fuel 0%nat initial initial eq_refl eq_refl)
    as (H1 & H2 & _).
  split; assumption.
Qed.

End TwoServers.

Lemma sleeps_share_one_duration_witness :
  Fin 500 = sleep_duration (GET_options 3)
  /\ (opt_maxRetries (GET_options 3) = None -> Fin 500 = NaN).
Proof.
  apply (sleeps_share_one_duration always_429 (fun _ => 1 # 4) (fun _ => None)
           (fun _ => 0) (GET_options 3) 3 (Fin 500)).
  vm_compute. right. left. reflexivity.
Defined.

Lemma at_most_one_more_than_the_budget_witness :
  (requests (snd (withAutomaticRetries always_429 (fun _ => 1 # 4) (fun _ => None)
                    (fun _ => 0%Z) (GET_options 3) 10)) <= 3 + 1)%nat
  /\ (sleeps (trace (snd (withAutomaticRetries always_429 (fun _ => 1 # 4)
                            (fun _ => None) (fun _ => 0%Z) (GET_options 3) 10)))
      <= 3)%nat.
Proof.
  apply (at_most_one_more_than_the_budget always_429 (fun _ => 1 # 4)
           (fun _ => None) (fun _ => 0) (GET_options 3) 3 10).
  - lia.
  - vm_compute. reflexivity.
Defined.

Lemma returned_response_is_the_last_one_witness :
  (0 < 4)%nat /\ always_429 (4 - 1)%nat = Resolved too_many_requests.
Proof.
  apply (returned_response_is_the_last_one always_429 (fun _ => 1 # 4)
           (fun _ => None) (fun _ => 0) (GET_options 3) 3 too_many_requests
           {| requests := 4; draws := 3;
              trace := [Request; Sleep (Fin 500); Request; Sleep (Fin 500);
                        Request; Sleep (Fin 500); Request] |}).
  vm_compute. reflexivity.
Defined.

Lemma zero_retries_means_five_witness :
  fst (withAutomaticRetries always_429 (fun _ => 1 # 4) (fun _ => None)
         (fun _ => 0) (GET_with (of_Z 0)) 5)
  = Fulfilled too_many_requests
  /\ requests (snd (withAutomaticRetries always_429 (fun _ => 1 # 4) (fun _ => None)
                      (fun _ => 0) (GET_with (of_Z 0)) 5))
     = 6%nat.
Proof.
  apply (zero_retries_means_five always_429 (fun _ => 1 # 4) (fun _ => None)
           (fun _ => 0) (GET_with (of_Z 0)) 5).
  - right. left. reflexivity.
  - intros k _. reflexivity.
  - lia.
Defined.

Lemma fractional_budget_never_ends_witness :
  withAutomaticRetries always_429 (fun _ => 1 # 4) (fun _ => None) (fun _ => 0)
                       (GET_with (Fin (5 # 2))) 8
  = (OutOfFuel,
     {| requests := 8; draws := 8; trace := List.repeat Request 8 |}).
Proof.
  apply (fractional_budget_never_ends always_429 (fun _ => 1 # 4) (fun _ => None)
           (fun _ => 0) (GET_with (Fin (5 # 2))) 8).
  - reflexivity.
  - reflexivity.
  - intros k. reflexivity.
Defined.

Lemma negative_budget_means_two_requests_witness :
  withAutomaticRetries always_429 (fun _ => 1 # 4) (fun _ => None) (fun _ => 0)
                       (GET_with (of_Z (-1))) 1
  = (Fulfilled too_many_requests,
     {| requests := 2; draws := 1; trace := [Request; Request] |}).
Proof.
  apply (negative_budget_means_two_requests always_429 (fun _ => 1 # 4)
           (fun _ => None) (fun _ => 0) (GET_with (of_Z (-1))) 0).
  - reflexivity.
  - reflexivity.
Defined.

End RetryExtras.

(** ** The [request] method *)

Module ClientFacts.
Import JS Client.

(** *** Where a request goes *)

Lemma ends_with_slash_app (s : string) : ends_with_slash (s ++ "/") = true.
Proof.
  induction s as [|c s IH]; [reflexivity|].
  cbn [String.append ends_with_slash].
  destruct (s ++ "/") eqn:E.
  - destruct s; discriminate E.
  - exact IH.
Qed.

(** X16: a leading slash on the route and a trailing slash on the base URL
    make no difference to where a request goes: ["/predictions"] and
    ["predictions"], and a base with or without its final ["/"], give the
    same arguments to [new URL]. *)
Theorem slashes_do_not_matter (c : client) (path : string) :
  starts_with_slash path = false ->
  ends_with_slash (baseUrl c) = false ->
  locate c (RoutePath ("/" ++ path)) = locate c (RoutePath path)
  /\ locate {| auth := auth c; baseUrl := baseUrl c ++ "/"; userAgent := userAgent c |}
            (RoutePath path)
     = locate c (RoutePath path)
  /\ locate c (RoutePath path) = NewURL path (baseUrl c ++ "/").
Proof.
  intros Hpath Hbase. unfold locate. cbn [baseUrl].
  rewrite Hpath, Hbase, ends_with_slash_app.
  cbn [String.append starts_with_slash slice_1 Ascii.eqb Bool.eqb].
  auto.
Qed.

(** *** Headers *)

Lemma get_assign_same (hs : list (string * string)) (k v : string) :
  get (assign hs k v) k = Some v.
Proof.
  induction hs as [|[k' v'] hs IH]; cbn [assign get].
  - rewrite String.eqb_refl. reflexivity.
  - destruct (k' =? k) eqn:E; cbn [get]; rewrite E; [reflexivity | exact IH].
Qed.

Lemma get_assign_other (hs : list (string * string)) (k k' v : string) :
  k <> k' -> get (assign hs k v) k' = get hs k'.
Proof.
  intros Hne. induction hs as [|[k0 v0] hs IH]; cbn [assign get].
  - apply String.eqb_neq in Hne. rewrite Hne. reflexivity.
  - destruct (k0 =? k) eqn:E; cbn [get].
    + apply String.eqb_eq in E. subst k0.
      apply String.eqb_neq in Hne. rewrite Hne. reflexivity.
    + destruct (k0 =? k'); [reflexivity | exact IH].
Qed.

(** The value the caller's entries give a key: that of the last entry for
    it. *)
Fixpoint last_given (entries : list (string * string)) (key : string)
  : option string :=
  match entries with
  | [] => None
  | (k, v) :: rest =>
      match last_given rest key with
      | Some v' => Some v'
      | None => if k =? key then Some v else None
      end
  end.

Lemma get_fold_assign (entries hs : list (string * string)) (key : string) :
  get (List.fold_left (fun headers kv => assign headers (fst kv) (snd kv)) entries hs)
      key
  = match last_given entries key with
    | Some v => Some v
    | None => get hs key
    end.
Proof.
  revert hs. induction entries as [|[k v] entries IH]; intros hs; [reflexivity|].
  cbn [List.fold_left last_given fst snd]. rewrite IH.
  destruct (last_given entries key); [reflexivity|].
  destruct (String.eqb_spec k key) as [->|Hne].
  - apply get_assign_same.
  - apply get_assign_other. exact Hne.
Qed.

(** The headers before the caller's are applied. *)
Definition default_header (c : client) (key : string) : option string :=
  if key =? "User-Agent" then Some (userAgent c)
  else if key =? "Content-Type" then Some "application/json"
  else if (key =? "Authorization") && Replicate.present (auth c)
  then Some ("Token " ++ Replicate.text (auth c))
  else None.

Lemma get_defaults (c : client) (key : string) :
  get (build_headers c None) key = default_header c key.
Proof.
  unfold build_headers, default_header.
  destruct (String.eqb_spec key "User-Agent") as [->|Hua].
  - apply get_assign_same.
  - rewrite get_assign_other by congruence.
    destruct (String.eqb_spec key "Content-Type") as [->|Hct].
    + apply get_assign_same.
    + rewrite get_assign_other by congruence.
      destruct (Replicate.present (auth c)).
      * destruct (String.eqb_spec key "Authorization") as [->|Ha];
          [apply get_assign_same|].
        rewrite get_assign_other by congruence. reflexivity.
      * rewrite andb_false_r. reflexivity.
Qed.


(** *** Retries of [request] *)

Section Requests.

Variable D : Type.
Variable JSON_stringify : D -> string.
Variable fetch : url -> init -> nat -> Retry.settled.
Variable random : nat -> Q.
Variable Date_parse : string -> option Z.
Variable now : nat -> Z.
Variable Retry_After : Retry.response -> header_value.

Variable c : client.
Variable r : route.
Variable o : request_options D.

(** The calls of [fetch] that one [request] makes. *)
Definition fetches : nat -> Retry.settled := fetch (target D c r o) (init_of D JSON_stringify c o).

Lemma budget_is_five : num_eq (Retry.maxRetries (retry_options D o)) (of_nat 5).
Proof. reflexivity. Qed.

(** How [request] settles on the outcome of the last [fetch]. *)
Definition settle_on (s : Retry.settled) : Replicate.promise Retry.response :=
  match s with
  | Retry.Resolved response =>
      if Retry.ok response then Replicate.Resolves response
      else Replicate.Rejects (ApiError (Retry_After response))
  | Retry.Rejected e => Replicate.Rejects e
  end.

Lemma request_eq (fuel : nat) :
  request D JSON_stringify fetch random Date_parse now Retry_After c fuel r o
  = (match fst (Retry.withAutomaticRetries fetches random Date_parse now
                  (retry_options D o) fuel) with
     | Retry.Fulfilled response => settle_on (Retry.Resolved response)
     | Retry.Failed e => Replicate.Rejects e
     | Retry.OutOfFuel => Replicate.Pending
     end,
     snd (Retry.withAutomaticRetries fetches random Date_parse now
            (retry_options D o) fuel)).
Proof.
  unfold request, fetches, settle_on.
  destruct (Retry.withAutomaticRetries _ _ _ _ _ _) as [[response|e|] w];
    cbn [fst snd]; [destruct (Retry.ok response)|..]; reflexivity.
Qed.

(** After [k] attempts that call for a retry, an attempt that does not, or
    the final one when the budget is used up, decides. *)
Lemma loop_until (N : nat) :
  (0 < N)%nat ->
  num_eq (Retry.maxRetries (retry_options D o)) (of_nat N) ->
  forall k fuel a w,
    (a + k <= N)%nat -> (k < fuel)%nat ->
    (forall i, (i < k)%nat ->
               RetryFacts.retried (retry_options D o) (fetches (Retry.requests w + i)) = true) ->
    (a + k < N)%nat /\
      RetryFacts.retried (retry_options D o) (fetches (Retry.requests w + k)) = false
    \/ (a + k = N)%nat /\ (0 < k)%nat ->
    let result := Retry.retry_loop fetches random Date_parse now (retry_options D o) fuel a w in
    fst result = RetryFacts.final_outcome (fetches (Retry.requests w + k))
    /\ Retry.requests (snd result) = (Retry.requests w + k + 1)%nat.
Proof.
  intros HN Hm. induction k as [|k IH]; intros fuel a w Hak Hfuel Hall Hend; cbv zeta.
  - destruct Hend as [[Hlt Hstop] | [_ Hk]]; [|lia].
    destruct fuel as [|fuel]; [lia|].
    rewrite RetryFacts.loop_step. rewrite Nat.add_0_r in *. rewrite Hstop.
    cbn [fst snd Retry.call_request Retry.call_random Retry.requests]. split; [reflexivity | lia].
  - destruct fuel as [|fuel]; [lia|].
    rewrite RetryFacts.loop_step.
    assert (H0 : RetryFacts.retried (retry_options D o) (fetches (Retry.requests w)) = true).
    { specialize (Hall 0%nat). rewrite Nat.add_0_r in Hall. apply Hall. lia. }
    rewrite H0. cbv zeta.
    rewrite (RetryFacts.attempts_after_attempt (retry_options D o) N HN Hm).
    rewrite (RetryFacts.lt_of_nat _ N _ Hm).
    match goal with
    | |- context [Retry.final_request fetches ?w1] => set (W := w1)
    end.
    assert (HW : Retry.requests W = S (Retry.requests w))
      by (subst W; rewrite RetryFacts.requests_after_attempt; reflexivity).
    clearbody W.
    destruct (Nat.ltb_spec (S a) N) as [Hlt | Hge].
    + destruct (IH fuel (S a) W) as [H1 H2]; try lia.
      * intros i Hi. rewrite HW.
        replace (S (Retry.requests w) + i)%nat with (Retry.requests w + S i)%nat by lia.
        apply Hall. lia.
      * rewrite HW.
        replace (S (Retry.requests w) + k)%nat with (Retry.requests w + S k)%nat by lia.
        destruct Hend as [[Hl Hs] | [He _]]; [left; split; [lia | exact Hs]|].
        right. split; [lia|]. lia.
      * rewrite H1, H2, HW. split; [f_equal; f_equal; lia | lia].
    + assert (k = 0)%nat by lia. subst k.
      rewrite RetryFacts.final_request_eq.
      cbn [fst snd Retry.call_request Retry.requests]. rewrite HW.
      split; [f_equal; f_equal; lia | lia].
Qed.

(** X12: with at least five units of fuel a [request] always settles, after
    six calls of [fetch] at most; the sleeps between them all have the
    argument [NaN], since [request] passes no [maxRetries]; and a response it
    resolves with is an [ok] one. *)
Theorem request_settles_within_six_fetches (fuel : nat) :
  (5 <= fuel)%nat ->
  let result :=
    request D JSON_stringify fetch random Date_parse now Retry_After c fuel r o in
  fst result <> Replicate.Pending
  /\ (Retry.requests (snd result) <= 6)%nat
  /\ (forall ms, In (Retry.Sleep ms) (Retry.trace (snd result)) -> ms = NaN)
  /\ (forall response, fst result = Replicate.Resolves response ->
                       Retry.ok response = true).
Proof.
  intros Hfuel. cbv zeta. rewrite request_eq. cbn [fst snd].
  unfold Retry.withAutomaticRetries.
  pose proof (RetryFacts.loop_terminates fetches random Date_parse now
                (retry_options D o) 5 ltac:(lia) budget_is_five 5 fuel 0%nat
                Retry.initial eq_refl Hfuel ltac:(lia)) as Hends.
  pose proof (RetryExtras.loop_bounded fetches random Date_parse now
                (retry_options D o) 5 ltac:(lia) budget_is_five fuel 0%nat
                Retry.initial ltac:(lia)) as [Hbound _].
  cbn [Retry.requests Retry.initial] in Hbound.
  repeat split.
  - destruct (fst (Retry.retry_loop _ _ _ _ _ _ _ _)) as [response|e|];
      [unfold settle_on; destruct (Retry.ok response)| |]; congruence.
  - lia.
  - intros ms Hin.
    apply RetryFacts.every_sleep_lasts_sleep_duration in Hin.
    destruct Hin as [[] | ->]. reflexivity.
  - intros response.
    destruct (fst (Retry.retry_loop _ _ _ _ _ _ _ _)) as [response'|e|];
      try discriminate.
    unfold settle_on. destruct (Retry.ok response') eqn:Hok; [|discriminate].
    intros H. injection H as <-. exact Hok.
Qed.



End Requests.

(** A client, and a service seen through [fetch]. *)
Definition a_client : client :=
  {| auth := Some "r8_token"; baseUrl := "https://api.replicate.com/v1";
     userAgent := "replicate-javascript/0.25.2" |}.

Definition options_for (m : string) : request_options string :=
  {| method := Some m; params := []; data := None; headers := None |}.

Definition ok_response : Retry.response := {| Retry.ok := true; Retry.status := 200 |}.
Definition server_error : Retry.response := {| Retry.ok := false; Retry.status := 500 |}.

Definition always_500 (u : url) (i : init) (k : nat) : Retry.settled :=
  Retry.Resolved server_error.

(** The network fails twice, then the service answers. *)
Definition fails_twice (u : url) (i : init) (k : nat) : Retry.settled :=
  if (k <? 2)%nat then Retry.Rejected (TypeError "fetch failed")
  else Retry.Resolved ok_response.

Lemma slashes_do_not_matter_witness :
  locate a_client (RoutePath "/predictions") = locate a_client (RoutePath "predictions")
  /\ locate {| auth := auth a_client; baseUrl := baseUrl a_client ++ "/";
               userAgent := userAgent a_client |} (RoutePath "predictions")
     = locate a_client (RoutePath "predictions")
  /\ locate a_client (RoutePath "predictions")
     = NewURL "predictions" "https://api.replicate.com/v1/".
Proof.
  apply (slashes_do_not_matter a_client "predictions"); reflexivity.
Defined.

Lemma request_settles_within_six_fetches_witness :
  fst (request string (fun d => d) always_500 (fun _ => 1 # 4) (fun _ => None)
         (fun _ => 0) (fun _ => HNull) a_client 5 (RoutePath "/predictions")
         (options_for "GET"))
  <> Replicate.Pending
  /\ (Retry.requests
        (snd (request string (fun d => d) always_500 (fun _ => 1 # 4) (fun _ => None)
                (fun _ => 0%Z) (fun _ => HNull) a_client 5 (RoutePath "/predictions")
                (options_for "GET"))) <= 6)%nat
  /\ (forall ms,
         In (Retry.Sleep ms)
            (Retry.trace
               (snd (request string (fun d => d) always_500 (fun _ => 1 # 4)
                       (fun _ => None) (fun _ => 0) (fun _ => HNull) a_client 5
                       (RoutePath "/predictions") (options_for "GET")))) ->
         ms = NaN)
  /\ (forall response,
         fst (request string (fun d => d) always_500 (fun _ => 1 # 4) (fun _ => None)
                (fun _ => 0) (fun _ => HNull) a_client 5 (RoutePath "/predictions")
                (options_for "GET"))
         = Replicate.Resolves response ->
         Retry.ok response = true).
Proof.
  apply (request_settles_within_six_fetches string (fun d => d) always_500
           (fun _ => 1 # 4) (fun _ => None) (fun _ => 0) (fun _ => HNull)
           a_client (RoutePath "/predictions") (options_for "GET") 5).
  lia.
Defined.



End ClientFacts.

(** ** Further properties of [paginate], [wait] and [run] *)

Module ReplicateExtras.
Import JS Replicate ReplicateFacts.

(** *** Pagination *)

Section Pages.

Variable endpoint : reply page.
Variable request_json : nat -> string -> reply page.

(** [broken k p rest e]: as a chain, but the last page has a [next]
    reference and the request for it fails with [e]. *)
Inductive broken : nat -> page -> list page -> JS.error -> Prop :=
| broken_here (k : nat) (p : page) (e : JS.error) :
    present (next p) = true ->
    request_json k (text (next p)) = Failure e ->
    broken k p [] e
| broken_later (k : nat) (p p' : page) (rest : list page) (e : JS.error) :
    present (next p) = true ->
    request_json k (text (next p)) = Answer p' ->
    broken (S k) p' rest e ->
    broken k p (p' :: rest) e.

Lemma consume_broken (k : nat) (p : page) (rest : list page) (e : JS.error) :
  broken k p rest e ->
  forall fuel w,
    fetches w = k ->
    (List.length rest < fuel)%nat ->
    consume endpoint request_json fuel (Suspended p) w
    = (List.map results rest, Some (Throw e),
       {| gets := gets w; reads := reads w;
          fetches := (fetches w + List.length rest + 1)%nat;
          trace := trace w ++ link_requests (p :: rest) |}).
Proof.
  induction 1 as [k p e Hnext Hreq | k p p' rest e Hnext Hreq Hbroken IH];
    intros fuel w Hk Hfuel.
  - destruct fuel as [|fuel]; [simpl in Hfuel; lia|].
    cbn [consume generator_next]. rewrite Hnext.
    unfold start. cbn [call_source]. rewrite Hk, Hreq.
    cbn [List.map List.length link_requests List.flat_map]. rewrite Hnext.
    rewrite app_nil_r. f_equal. f_equal; lia.
  - destruct fuel as [|fuel]; [simpl in Hfuel; lia|].
    cbn [consume generator_next]. rewrite Hnext.
    unfold start. cbn [call_source]. rewrite Hk, Hreq.
    rewrite IH; [|reflexivity|simpl in Hfuel; lia].
    cbn [List.map List.length gets reads fetches trace].
    f_equal. f_equal; [lia|].
    cbn [link_requests List.flat_map] in *. rewrite Hnext.
    rewrite <- app_assoc. reflexivity.
Qed.

Lemma consume_prefix (k : nat) (p : page) (rest : list page) :
  chain request_json k p rest ->
  forall fuel w,
    fetches w = k ->
    (fuel <= List.length rest)%nat ->
    consume endpoint request_json fuel (Suspended p) w
    = (List.map results (List.firstn fuel rest), None,
       {| gets := gets w; reads := reads w;
          fetches := (fetches w + fuel)%nat;
          trace := trace w ++ link_requests (List.firstn fuel (p :: rest)) |}).
Proof.
  induction 1 as [k p Hlast | k p p' rest Hnext Hreq Hchain IH];
    intros fuel w Hk Hfuel.
  - assert (fuel = 0)%nat by (simpl in Hfuel; lia). subst fuel.
    cbn [consume List.firstn List.map link_requests List.flat_map].
    rewrite Nat.add_0_r, app_nil_r. destruct w; reflexivity.
  - destruct fuel as [|fuel].
    + cbn [consume List.firstn List.map link_requests List.flat_map].
      rewrite Nat.add_0_r, app_nil_r. destruct w; reflexivity.
    + cbn [consume generator_next]. rewrite Hnext.
      unfold start. cbn [call_source]. rewrite Hk, Hreq.
      rewrite IH; [|reflexivity|simpl in Hfuel; lia].
      cbn [List.map List.firstn gets reads fetches trace].
      f_equal. f_equal; [lia|].
      cbn [link_requests List.flat_map]. rewrite Hnext.
      rewrite <- app_assoc. reflexivity.
Qed.

End Pages.

(** X21: when the request for some page of the chain fails, consuming
    [paginate] yields the results of the pages before it, in order, and then
    throws that error; the failed request is the last call made.  When the
    endpoint itself fails, nothing is yielded. *)
Theorem paginate_stops_at_a_failed_page
        (endpoint : reply page) (request_json : nat -> string -> reply page)
        (first : page) (rest : list page) (e : JS.error) (fuel : nat) :
  endpoint = Answer first ->
  broken request_json 0 first rest e ->
  (List.length rest + 1 < fuel)%nat ->
  consume endpoint request_json fuel paginate initial
  = (List.map results (first :: rest), Some (Throw e),
     {| gets := 0; reads := 0; fetches := List.length rest + 1;
        trace := CallEndpoint :: link_requests (first :: rest) |})
  /\ consume (Failure e) request_json fuel paginate initial
     = ([], Some (Throw e),
        {| gets := 0; reads := 0; fetches := 0; trace := [CallEndpoint] |}).
Proof.
  intros Hfirst Hbroken Hfuel. subst endpoint.
  destruct fuel as [|fuel]; [lia|]. split; [|reflexivity].
  unfold paginate. cbn [consume generator_next]. unfold start. cbn [call_source].
  rewrite (consume_broken (Answer first) request_json 0 first rest e Hbroken);
    [reflexivity | reflexivity | cbn [List.length] in *; lia].
Qed.

(** X22: pages are requested only as they are asked for: after [j] calls of
    [next()] on a chain of at least [j] pages, [j] batches have been yielded
    and exactly [j] calls made, the endpoint and the first [j - 1] [next]
    references. *)
Theorem paginate_fetches_on_demand
        (endpoint : reply page) (request_json : nat -> string -> reply page)
        (first : page) (rest : list page) (j : nat) :
  endpoint = Answer first ->
  chain request_json 0 first rest ->
  (j <= List.length rest)%nat ->
  consume endpoint request_json (S j) paginate initial
  = (List.map results (List.firstn (S j) (first :: rest)), None,
     {| gets := 0; reads := 0; fetches := j;
        trace := CallEndpoint :: link_requests (List.firstn j (first :: rest)) |}).
Proof.
  intros Hfirst Hchain Hj. subst endpoint.
  unfold paginate. cbn [consume generator_next]. unfold start. cbn [call_source].
  rewrite (consume_prefix (Answer first) request_json 0 first rest Hchain);
    [reflexivity | reflexivity | exact Hj].
Qed.

Definition failing_after_two (k : nat) (url : string) : reply page :=
  if url =? "next1" then Answer page_c
  else Failure (ApiError HNull).

Lemma paginate_stops_at_a_failed_page_witness :
  consume (Answer page_ab) failing_after_two 4 paginate initial
  = ([["a"; "b"]; ["c"]], Some (Throw (ApiError HNull)),
     {| gets := 0; reads := 0; fetches := 2;
        trace := [CallEndpoint; RequestGET "next1"; RequestGET "next2"] |})
  /\ consume (Failure (ApiError HNull)) failing_after_two 4 paginate initial
     = ([], Some (Throw (ApiError HNull)),
        {| gets := 0; reads := 0; fetches := 0; trace := [CallEndpoint] |}).
Proof.
  apply (paginate_stops_at_a_failed_page (Answer page_ab) failing_after_two
           page_ab [page_c] (ApiError HNull) 4).
  - reflexivity.
  - apply broken_later; [reflexivity | reflexivity |].
    apply broken_here; reflexivity.
  - simpl. lia.
Defined.

Lemma paginate_fetches_on_demand_witness :
  consume (Answer page_ab) three_pages 2 paginate initial
  = ([["a"; "b"]; ["c"]], None,
     {| gets := 0; reads := 0; fetches := 1;
        trace := [CallEndpoint; RequestGET "next1"] |}).
Proof.
  apply (paginate_fetches_on_demand (Answer page_ab) three_pages
           page_ab [page_c; page_de] 1).
  - reflexivity.
  - apply chain_link; [reflexivity | reflexivity |].
    apply chain_link; [reflexivity | reflexivity |].
    apply chain_last. reflexivity.
  - simpl. lia.
Defined.


(** *** Polling to the end *)

Lemma bind_assoc {A B C} (m : M A) (f : A -> M B) (g : B -> M C) (w : world) :
  bind m (fun a => bind (f a) g) w = bind (bind m f) g w.
Proof. unfold bind. destruct (m w) as [[a|e|] w']; reflexivity. Qed.

(** A reply that ends the polling loop: a terminal record, or a failure. *)
Definition ends_polling (r : reply prediction) : Prop :=
  match r with
  | Answer p => terminal (status p) = true
  | Failure _ => True
  end.

(** How [wait] settles on such a reply. *)
Definition settles_as (r : reply prediction) : promise prediction :=
  match r with
  | Answer p =>
      if status p =? "failed"
      then Rejects (Error ("Prediction failed: " ++ error p))
      else Resolves p
  | Failure e => Rejects e
  end.

Section Quiet.

Variable predictions_get : nat -> reply prediction.
Variable prediction : prediction.
Variable wopts : option wait_options.
Variable stop : option (Replicate.prediction -> M bool).

(** What a call of [stop] leaves in the trace, and how many reads of the
    signal it makes. *)
Variable note : Replicate.prediction -> list event.
Variable tick : nat.

(** The first [n] fetches answer running records, fetch [n] ends the loop. *)
Variable fetched : nat -> Replicate.prediction.
Variable n : nat.
Variable last : reply Replicate.prediction.
Hypothesis fetched_answers :
  forall i, (i < n)%nat -> predictions_get i = Answer (fetched i).
Hypothesis fetched_running :
  forall i, (i < n)%nat -> terminal (status (fetched i)) = false.
Hypothesis last_reply : predictions_get n = last.
Hypothesis last_ends : ends_polling last.

(** [stop], if any, never asks to stop on these records. *)
Hypothesis stop_quiet :
  forall j w, (j < n)%nat -> reads w = (j * tick)%nat ->
    (match stop with Some f => f (fetched j) | None => ret false end) w
    = (Resolves false,
       {| gets := gets w; reads := (reads w + tick)%nat; fetches := fetches w;
          trace := trace w ++ note (fetched j) |}).

(** The iterations of the loop on the records [j], ..., [j + k - 1]. *)
Definition rounds (j k : nat) : list event :=
  List.flat_map
    (fun u => note u ++ [SleepFor (interval wopts); Get (id prediction)])%list
    (List.map fetched (List.seq j k)).

Lemma poll_round (fuel : nat) (u : Replicate.prediction) (w : world) :
  terminal (status u) = false ->
  poll predictions_get prediction wopts stop (S fuel) u w
  = bind (match stop with Some f => f u | None => ret false end)
         (fun stopped : bool =>
            if stopped then ret u
            else bind (sleep (interval wopts))
                      (fun _ => bind (call_get predictions_get (id prediction))
                                     (poll predictions_get prediction wopts stop fuel)))
         w.
Proof. intros Hu. cbn [poll]. rewrite Hu. reflexivity. Qed.

Lemma fetch_and_poll :
  forall k fuel w j,
    (j + k = n)%nat -> gets w = j -> reads w = (j * tick)%nat -> (k <= fuel)%nat ->
    bind (call_get predictions_get (id prediction))
         (poll predictions_get prediction wopts stop fuel) w
    = (match last with Answer p => Resolves p | Failure e => Rejects e end,
       {| gets := S n; reads := (n * tick)%nat; fetches := fetches w;
          trace := trace w ++ Get (id prediction) :: rounds j k |}).
Proof.
  induction k as [|k IH]; intros fuel w j Hn Hgets Hreads Hfuel.
  - rewrite Nat.add_0_r in Hn. subst j.
    unfold bind at 1. rewrite call_get_eq, Hgets, last_reply.
    unfold rounds. cbn [List.seq List.map List.flat_map].
    destruct last as [p|e]; cbn [ends_polling] in last_ends.
    + destruct fuel; cbn [poll]; rewrite last_ends; unfold ret;
        rewrite Hreads; reflexivity.
    + rewrite Hreads. reflexivity.
  - destruct fuel as [|fuel]; [lia|].
    unfold bind at 1. rewrite call_get_eq, Hgets, fetched_answers by lia.
    rewrite poll_round by (apply fetched_running; lia).
    unfold bind at 1. rewrite stop_quiet by (cbn [reads]; lia).
    cbn [gets reads fetches trace].
    unfold bind at 1. unfold sleep, log. cbn [gets reads fetches trace].
    rewrite (IH fuel _ (S j)); cbn [gets reads fetches trace]; try lia.
    unfold rounds. cbn [List.seq List.map List.flat_map].
    rewrite <- !app_assoc. reflexivity.
Qed.

Lemma wait_quiet (fuel : nat) (w : world) :
  present (id prediction) = true ->
  terminal (status prediction) = false ->
  gets w = 0%nat -> reads w = 0%nat -> (n <= fuel)%nat ->
  wait predictions_get prediction wopts stop fuel w
  = (settles_as last,
     {| gets := S n; reads := (n * tick)%nat; fetches := fetches w;
        trace := trace w ++ Get (id prediction) :: rounds 0 n |}).
Proof.
  intros Hid Hstatus Hgets Hreads Hfuel. unfold wait.
  rewrite Hid, Hstatus. cbn [negb].
  rewrite bind_assoc. unfold bind at 1.
  rewrite (fetch_and_poll n fuel w 0%nat) by (auto; lia).
  unfold settles_as. destruct last as [p|e]; [|reflexivity].
  destruct (status p =? "failed"); reflexivity.
Qed.

End Quiet.

Lemma rounds_without_stop (prediction : prediction) (wopts : option wait_options)
      (fetched : nat -> Replicate.prediction) (j k : nat) :
  rounds prediction wopts (fun _ => []) fetched j k
  = List.concat
      (List.repeat [SleepFor (interval wopts); Get (id prediction)] k).
Proof.
  unfold rounds. revert j. induction k as [|k IH]; intros j; [reflexivity|].
  cbn [List.seq List.map List.flat_map List.repeat List.concat].
  rewrite IH. reflexivity.
Qed.


(** *** Running to the end *)

Section Completing.

Variable predictions_get : nat -> reply prediction.
Variable predictions_create : reply prediction.
Variable predictions_cancel : reply unit.
Variable options : run_options.
Variable progress : bool.

(** Reads of [signal.aborted] per call of the callback. *)
Definition ticks : nat :=
  match signal options with Some _ => 1%nat | None => 0%nat end.

Lemma run_stop_quiet (u : prediction) (w : world) :
  (forall aborted, signal options = Some aborted -> aborted (reads w) = false) ->
  run_stop predictions_cancel options progress u w
  = (Resolves false,
     {| gets := gets w; reads := (reads w + ticks)%nat; fetches := fetches w;
        trace := trace w ++ progress_events progress u |}).
Proof.
  intros Hquiet.
  unfold run_stop, call_progress, read_aborted, ticks.
  destruct (signal options) as [aborted|].
  - specialize (Hquiet aborted eq_refl).
    destruct progress; unfold bind, log, ret, progress_events;
      cbn [gets reads fetches trace]; rewrite Hquiet;
      rewrite ?app_nil_r, Nat.add_1_r; reflexivity.
  - destruct w as [g r f t].
    destruct progress; unfold bind, log, ret, progress_events;
      cbn [gets reads fetches trace];
      rewrite ?app_nil_r, Nat.add_0_r; reflexivity.
Qed.

Variable identifier : identifier.
Variable created : prediction.
Hypothesis identifier_resolves :
  present (version identifier)
  || (present (owner identifier) && present (name identifier)) = true.
Hypothesis created_answer : predictions_create = Answer created.
Hypothesis created_id : present (id created) = true.

Lemma run_from_created (fuel : nat) :
  run predictions_get predictions_create predictions_cancel
      fuel identifier options progress initial
  = bind (wait predictions_get created
               (match run_wait options with
                | Some w => Some w
                | None => Some {| wait_interval := None |}
                end)
               (Some (run_stop predictions_cancel options progress)) fuel)
         (fun prediction =>
            bind (call_progress progress prediction)
                 (fun _ =>
                    if status prediction =? "failed"
                    then throw (Error ("Prediction failed: " ++ error prediction))
                    else ret (output prediction)))
         {| gets := 0; reads := 0; fetches := 0;
            trace := create_event identifier :: progress_events progress created |}.
Proof.
  unfold run.
  rewrite (bind_resolves _ _ _ _ _
             (create_eq predictions_create identifier created
                        identifier_resolves created_answer)).
  rewrite (bind_resolves _ _ _ _ _ (call_progress_eq progress created _)).
  reflexivity.
Qed.

End Completing.

Lemma interval_of_run (options : run_options) :
  interval (match run_wait options with
            | Some w => Some w
            | None => Some {| wait_interval := None |}
            end)
  = interval (run_wait options).
Proof. destruct (run_wait options); reflexivity. Qed.

(** The [progress] calls and requests of [run] while it polls the running
    records [fetched 0], ..., [fetched (n - 1)]. *)
Definition run_rounds (options : run_options) (progress : bool)
           (created : prediction) (fetched : nat -> prediction) (n : nat)
  : list event :=
  List.flat_map
    (fun u => progress_events progress u
              ++ [SleepFor (interval (run_wait options)); Get (id created)])%list
    (List.map fetched (List.seq 0 n)).



(** X20: what [run] does when it cannot start polling.  A reference with
    neither a version nor both an owner and a name is rejected before any
    request; a rejected create request rejects [run] with the same error and
    [progress] is never called; a created record without an [id] gets one
    [progress] call and then ['Invalid prediction'], with no status
    fetch. *)
Theorem run_rejects_before_polling
        (predictions_get : nat -> reply prediction)
        (predictions_create : reply prediction) (predictions_cancel : reply unit)
        (options : run_options) (progress : bool)
        (identifier : identifier) (fuel : nat) :
  (present (version identifier)
   || (present (owner identifier) && present (name identifier)) = false ->
   run predictions_get predictions_create predictions_cancel
       fuel identifier options progress initial
   = (Rejects (Error "Invalid model version identifier"), initial))
  /\ (forall e,
         present (version identifier)
         || (present (owner identifier) && present (name identifier)) = true ->
         predictions_create = Failure e ->
         run predictions_get predictions_create predictions_cancel
             fuel identifier options progress initial
         = (Rejects e,
            {| gets := 0; reads := 0; fetches := 0;
               trace := [create_event identifier] |}))
  /\ (forall created,
         present (version identifier)
         || (present (owner identifier) && present (name identifier)) = true ->
         predictions_create = Answer created ->
         present (id created) = false ->
         run predictions_get predictions_create predictions_cancel
             fuel identifier options progress initial
         = (Rejects (Error "Invalid prediction"),
            {| gets := 0; reads := 0; fetches := 0;
               trace := create_event identifier
                        :: progress_events progress created |})).
Proof.
  split; [|split].
  - intros Hident. apply orb_false_iff in Hident as [Hv Hon].
    unfold run. rewrite Hv, Hon. reflexivity.
  - intros e Hident Hcreate. unfold run, create_event, call_create.
    rewrite Hcreate.
    destruct (present (version identifier)); cbn [orb] in Hident;
      [|rewrite Hident]; reflexivity.
  - intros created Hident Hcreate Hid.
    rewrite (run_from_created predictions_get predictions_create predictions_cancel
               options progress identifier created Hident Hcreate).
    unfold wait. rewrite Hid. reflexivity.
Qed.


(** Two fetches answer a running record, the third a finished one. *)
Definition done_on_third_fetch (k : nat) : reply prediction :=
  if (k <? 2)%nat then Answer processing_record else Answer succeeded_record.


(** A signal that is never aborted, and a polling interval of 100 ms. *)
Definition never_aborted : run_options :=
  {| run_wait := Some {| wait_interval := Some (of_Z 100) |};
     signal := Some (fun _ => false) |}.



Definition owner_only : identifier :=
  {| owner := Some "replicate"; name := None; version := None |}.

Definition record_without_id : prediction :=
  {| id := None; status := "starting"; output := ""; error := "" |}.

Lemma run_rejects_before_polling_witness :
  run (fun _ => Answer succeeded_record) (Answer starting_record) (Answer tt) 3
      owner_only never_aborted true initial
  = (Rejects (Error "Invalid model version identifier"), initial)
  /\ run (fun _ => Answer succeeded_record) (Failure (ApiError HNull)) (Answer tt) 3
         owner_and_name never_aborted true initial
     = (Rejects (ApiError HNull),
        {| gets := 0; reads := 0; fetches := 0;
           trace := [Create "model" "replicate/hello-world"] |})
  /\ run (fun _ => Answer succeeded_record) (Answer record_without_id) (Answer tt) 3
         owner_and_name never_aborted true initial
     = (Rejects (Error "Invalid prediction"),
        {| gets := 0; reads := 0; fetches := 0;
           trace := [Create "model" "replicate/hello-world";
                     Progress record_without_id] |}).
Proof.
  split; [|split].
  - apply (proj1 (run_rejects_before_polling
                    (fun _ => Answer succeeded_record) (Answer starting_record)
                    (Answer tt) never_aborted true owner_only 3)).
    reflexivity.
  - apply (proj1 (proj2 (run_rejects_before_polling
                    (fun _ => Answer succeeded_record) (Failure (ApiError HNull))
                    (Answer tt) never_aborted true owner_and_name 3))
             (ApiError HNull)); reflexivity.
  - apply (proj2 (proj2 (run_rejects_before_polling
                    (fun _ => Answer succeeded_record) (Answer record_without_id)
                    (Answer tt) never_aborted true owner_and_name 3))
             record_without_id); reflexivity.
Defined.

End ReplicateExtras.
